(** * CollectionPathHelper (src/path.Helper.js): path tokenizer and detokenizer

    A shallow embedding of the static methods of [CollectionPathHelper] and
    the properties of its path notation.

    JavaScript strings are modelled as lists of characters ([list ascii]);
    the only characters the code inspects are ['.'], ['['], [']'] and [','].
    Indices and counts are JavaScript numbers restricted to integers ([Z]),
    so that [indexOf]'s [-1] and the negative start of [splice] are written
    the way the code has them. *)

From Stdlib Require Import String Ascii ZArith Lia Bool Arith List.
From Equations Require Import Equations.
Import ListNotations.

Local Open Scope string_scope.
Local Open Scope list_scope.
Local Open Scope Z_scope.

(** ** Strings *)

Definition jsstring := list ascii.

(** String literals are read as JavaScript strings. *)
Coercion list_ascii_of_string : string >-> list.

(** An array of string literals. *)
Definition strings (l : list string) : list jsstring :=
  map list_ascii_of_string l.

(** [a === b] on strings *)
Fixpoint jsstring_eqb (a b : jsstring) : bool :=
  match a, b with
  | [], [] => true
  | x :: a', y :: b' => Ascii.eqb x y && jsstring_eqb a' b'
  | _, _ => false
  end.

Definition len (s : jsstring) : Z := Z.of_nat (length s).

(** [s.startsWith(needle)] *)
Fixpoint startsWith (s needle : jsstring) {struct needle} : bool :=
  match needle, s with
  | [], _ => true
  | _ :: _, [] => false
  | a :: needle', b :: s' => Ascii.eqb a b && startsWith s' needle'
  end.

(** First offset at which [needle] occurs in [s], counted from [k]. *)
Fixpoint search (needle s : jsstring) (k : nat) : option nat :=
  if startsWith s needle then Some k
  else match s with
       | [] => None
       | _ :: s' => search needle s' (S k)
       end.

(** [s.indexOf(needle, position)]: the position is clamped to [0..length],
    the result is [-1] when there is no occurrence. *)
Definition indexOf (s needle : jsstring) (position : Z) : Z :=
  let start := Z.to_nat (Z.min (Z.max position 0) (len s)) in
  match search needle (skipn start s) start with
  | Some k => Z.of_nat k
  | None => -1
  end.

(** A relative index of [slice]: negative counts from the end. *)
Definition relative_index (s : jsstring) (i : Z) : nat :=
  Z.to_nat (if i <? 0 then Z.max (len s + i) 0 else Z.min i (len s)).

(** [s.slice(from, to)] *)
Definition slice (s : jsstring) (from to : Z) : jsstring :=
  let a := relative_index s from in
  let b := relative_index s to in
  firstn (b - a)%nat (skipn a s).

(** [s.slice(from)] *)
Definition slice_from (s : jsstring) (from : Z) : jsstring :=
  skipn (relative_index s from) s.

(** [s.substring(from, to)]: arguments are clamped to [0..length] and
    swapped when out of order. *)
Definition substring (s : jsstring) (from to : Z) : jsstring :=
  let a := Z.to_nat (Z.min (Z.max from 0) (len s)) in
  let b := Z.to_nat (Z.min (Z.max to 0) (len s)) in
  firstn (Nat.max a b - Nat.min a b)%nat (skipn (Nat.min a b) s).

(** [s.replace(pattern, replacement)] with a string pattern: only the first
    occurrence is replaced.  (The replacement is taken literally; every call
    of the source passes the empty string.) *)
Fixpoint replace (s pattern replacement : jsstring) : jsstring :=
  if startsWith s pattern then replacement ++ skipn (length pattern) s
  else match s with
       | [] => []
       | c :: s' => c :: replace s' pattern replacement
       end.

(** [s.split(separator)] for a non-empty separator: [skip] counts the
    characters of an occurrence of the separator still to be passed over;
    the result is the piece being read and the pieces after it. *)
Fixpoint split_from (separator : jsstring) (skip : nat) (s : jsstring)
  : jsstring * list jsstring :=
  match s with
  | [] => ([], [])
  | c :: s' =>
      match skip with
      | S k => split_from separator k s'
      | O =>
          if startsWith s separator
          then let (h, t) := split_from separator (length separator - 1)%nat s' in
               ([], h :: t)
          else let (h, t) := split_from separator 0 s' in
               (c :: h, t)
      end
  end.

(** [s.split(separator)]; the empty separator splits into characters. *)
Definition split (s separator : jsstring) : list jsstring :=
  match separator with
  | [] => map (fun c => [c]) s
  | _ :: _ => let (h, t) := split_from separator 0 s in h :: t
  end.

(** [pieces.join("")] *)
Definition join_empty (pieces : list jsstring) : jsstring := concat pieces.

(** ** Values *)

#[local] Set Warnings "-register-all".

(** The JavaScript values the helper can be handed.  Numbers are the
    integers; [VStringObj] is a boxed [new String(..)]. *)
Inductive jsvalue : Type :=
| VUndefined
| VNull
| VBool (b : bool)
| VNum (n : Z)
| VStr (s : jsstring)
| VStringObj (s : jsstring)
| VArr (items : list jsvalue)
| VObj (props : list (jsstring * jsvalue)).

(** [typeof v === 'string' || v instanceof String], with the characters. *)
Definition as_string (v : jsvalue) : option jsstring :=
  match v with
  | VStr s | VStringObj s => Some s
  | _ => None
  end.

(** Outcome of a call: a returned value or a thrown [TypeError]. *)
Inductive completion (A : Type) : Type :=
| Returned (a : A)
| TypeError.
Arguments Returned {A} a.
Arguments TypeError {A}.

(** ** Options *)

(** A field of [{...defaults, ...options}]: the caller's value when the
    field is given, the default otherwise. *)
Definition with_default {A : Type} (default : A) (given : option A) : A :=
  match given with
  | Some a => a
  | None => default
  end.

(** ** getRemainingString *)

Record remainingOptions := {
  discardedStrings : option (list jsstring);
  global : option bool
}.

(** [getRemainingString(property, options)] on a string [property]. *)
Definition getRemainingString (property : jsstring) (options : remainingOptions)
  : jsstring :=
  let discardedStrings := with_default [ [] ] (discardedStrings options) in
  let global := with_default false (global options) in
  fold_left
    (fun property discarded =>
       if global then join_empty (split property discarded)
       else replace property discarded [])
    discardedStrings property.

(** ** explodePath *)

(** The loop of [explodePath] ends: what it discards from a piece is a
    non-empty prefix of the piece, whose first occurrence is at the start,
    so that the piece gets shorter at every turn. *)

Lemma search_bounds needle s k i :
  search needle s k = Some i -> (k <= i /\ i <= k + length s)%nat.
Proof.
  revert k; induction s as [|c s IH]; intros k; cbn [search length].
  - destruct (startsWith [] needle); [|discriminate].
    intros [= E]; lia.
  - destruct (startsWith (c :: s) needle); [intros [= E]; lia |].
    intros H; apply IH in H; lia.
Qed.

Lemma search_char_lt c s k i :
  search [c] s k = Some i -> (i < k + length s)%nat.
Proof.
  revert k; induction s as [|a s IH]; intros k; cbn [search length startsWith];
    [discriminate|].
  destruct (Ascii.eqb c a && true); [intros [= E]; lia |].
  intros H; apply IH in H; lia.
Qed.

Lemma startsWith_firstn s n : startsWith s (firstn n s) = true.
Proof.
  revert n; induction s as [|c s IH]; intros [|n]; simpl; auto.
  rewrite Ascii.eqb_refl; simpl; apply IH.
Qed.

Lemma replace_prefix s n : replace s (firstn n s) [] = skipn (Nat.min n (length s)) s.
Proof.
  destruct s as [|c s]; [rewrite firstn_nil, Nat.min_0_r; reflexivity|].
  destruct n as [|n]; [reflexivity|].
  cbn [firstn replace startsWith].
  rewrite Ascii.eqb_refl, startsWith_firstn.
  cbn [andb app]. rewrite <- firstn_cons, length_firstn. reflexivity.
Qed.

Lemma indexOf_char_range (partial : jsstring) c i :
  indexOf partial [c] 1 = i -> i <> -1 -> 1 <= i < len partial.
Proof.
  unfold indexOf, len. intros H Hi.
  destruct (search _ _ _) as [k|] eqn:E; [|congruence].
  pose proof (search_char_lt _ _ _ _ E) as Hlt.
  apply search_bounds in E. rewrite length_skipn in *. lia.
Qed.

Lemma relative_index_inside s i :
  0 <= i <= len s -> relative_index s i = Z.to_nat i.
Proof.
  unfold relative_index; intros H.
  destruct (Z.ltb_spec i 0); [lia|]. rewrite Z.min_l by lia. reflexivity.
Qed.

Lemma slice_prefix s i : 0 <= i <= len s -> slice s 0 i = firstn (Z.to_nat i) s.
Proof.
  intros H. unfold slice.
  rewrite !relative_index_inside by (unfold len in *; lia).
  change (Z.to_nat 0) with 0%nat. rewrite Nat.sub_0_r. reflexivity.
Qed.

Lemma getRemainingString_prefix (partial : jsstring) i :
  1 <= i < len partial ->
  getRemainingString partial
    {| discardedStrings := Some [slice partial 0 i]; global := None |}
  = skipn (Z.to_nat i) partial.
Proof.
  intros H. unfold getRemainingString; simpl.
  rewrite slice_prefix by lia. rewrite replace_prefix.
  unfold len in H. f_equal. lia.
Qed.

(** The [while] loop of [explodePath] on one dot-separated piece: cut the
    piece before each ['['] past its first character, pushing the cuts. *)
Equations? explode_partial (partial : jsstring) (result : list jsstring)
  : list jsstring by wf (length partial) lt :=
  explode_partial partial result with Z.eq_dec (indexOf partial "[" 1) (-1) := {
    | left _ => result ++ [partial]
    | right Hfound =>
        let fragmentPartial := indexOf partial "[" 1 in
        let newFragment := slice partial 0 fragmentPartial in
        explode_partial
          (getRemainingString partial
             {| discardedStrings := Some [newFragment]; global := None |})
          (result ++ [newFragment]) }.
Proof.
  pose proof (indexOf_char_range _ _ _ eq_refl Hfound) as Hr.
  subst newFragment fragmentPartial.
  rewrite getRemainingString_prefix by exact Hr.
  rewrite length_skipn. unfold len in Hr. lia.
Qed.

(** [explodePath(path)] on a string [path]. *)
Definition explodePath (path : jsstring) : list jsstring :=
  fold_left
    (fun result q =>
       match slice_from q 1 with
       | [] => result
       | _ :: _ => result ++ [q]
       end)
    (fold_left (fun result partial => explode_partial partial result)
       (split path ".") [])
    [].

(** ** getStartType *)

(** [getStartType(path)]: the kind of the first fragment of [path]. *)
Definition getStartType (path : jsvalue) : jsstring :=
  match as_string path with
  | Some s =>
      if 0 <? len s then
        let endBracket := indexOf s "]" 1 in
        if match nth_error s 0 with
           | Some c => Ascii.eqb c "["
           | None => false
           end && (-1 <? endBracket)
        then
          if indexOf (substring s 0 endBracket) "," 2 =? -1
          then "array" else "object"
        else "object"
      else "unknown"
  | None => "unknown"
  end.

(** ** implodePath *)

(** The text a template literal inserts for a string or a boxed string;
    [implodePath] interpolates a fragment only after [getStartType] has
    answered 'object' or 'array', which it does for these values alone. *)
Definition interpolate (v : jsvalue) : jsstring :=
  match as_string v with
  | Some s => s
  | None => []
  end.

(** The reducer of [implodePath]. *)
Definition implode_step (path : jsstring) (fragment : jsvalue) : jsstring :=
  let type := getStartType fragment in
  if jsstring_eqb type "object" then
    if jsstring_eqb path "" then path ++ interpolate fragment
    else path ++ "." ++ interpolate fragment
  else if jsstring_eqb type "array" then path ++ interpolate fragment
  else path.

(** [implodePath(pathFragments)] *)
Definition implodePath (pathFragments : list jsvalue) : jsstring :=
  fold_left implode_step pathFragments ("" : jsstring).

(** ** removePathLevels *)

(** [array.splice(start, deleteCount)]: the array after the removal.  A
    negative [start] counts from the end; both arguments are clamped. *)
Definition splice {A : Type} (array : list A) (start deleteCount : Z) : list A :=
  let n := Z.of_nat (length array) in
  let actualStart := if start <? 0 then Z.max (n + start) 0 else Z.min start n in
  let actualDeleteCount := Z.min (Z.max deleteCount 0) (n - actualStart) in
  firstn (Z.to_nat actualStart) array
    ++ skipn (Z.to_nat (actualStart + actualDeleteCount)) array.

Record removeLevelsOptions := {
  count : option Z;
  termination : option jsstring
}.

(** [removePathLevels(path, options)] on a string [path]. *)
Definition removePathLevels (path : jsstring) (options : removeLevelsOptions)
  : jsstring :=
  let count := with_default 1 (count options) in
  let termination := with_default ("end" : jsstring) (termination options) in
  let pathFragments := explodePath path in
  let pathFragments :=
    if jsstring_eqb termination "end" then
      splice pathFragments (Z.of_nat (length pathFragments) - count) count
    else if jsstring_eqb termination "start" then
      splice pathFragments 0 count
    else pathFragments in
  implodePath (map VStr pathFragments).

(** ** getSubPaths *)

Record subPathsOptions := {
  ignoreRoot : option bool;
  ignoreFull : option bool
}.

(** [getSubPaths(property, options)]: the reducer threads the accumulated
    fragments and pushes to the outer [result]. *)
Definition getSubPaths (property : jsvalue) (options : subPathsOptions)
  : list jsstring :=
  let ignoreRoot := with_default false (ignoreRoot options) in
  let ignoreFull := with_default false (ignoreFull options) in
  match as_string property with
  | None => []
  | Some s =>
      let result : list jsstring := if ignoreRoot then [] else [ [] ] in
      let '(_, result) :=
        fold_left
          (fun '(accumulatedPath, result) path =>
             let accumulatedPath := accumulatedPath ++ [path] in
             (accumulatedPath,
              result ++ [implodePath (map VStr accumulatedPath)]))
          (explodePath s) ([], result) in
      if (0 <? Z.of_nat (length result)) && ignoreFull
      then removelast result else result
  end.

(** ** replacePathArraysWithString *)

Record replaceArraysOptions := {
  string_ : option jsvalue
}.

(** [replacePathArraysWithString(property, options)] on a string
    [property]. *)
Definition replacePathArraysWithString (property : jsstring)
    (options : replaceArraysOptions) : jsstring :=
  let string_ := with_default (VStr "") (string_ options) in
  implodePath
    (map (fun ep => if jsstring_eqb (getStartType (VStr ep)) "array"
                    then string_ else VStr ep)
       (explodePath property)).

(** ** get and set *)

(** [(typeof path === 'string' || path instanceof String) && path.length > 0
    || (Array.isArray(path) && path.length > 0)] *)
Definition usable_path (path : jsvalue) : bool :=
  match path with
  | VStr s | VStringObj s => 0 <? len s
  | VArr items => 0 <? Z.of_nat (length items)
  | _ => false
  end.

(** [path.startsWith('.')] followed by [path.replace('.', '')], for a
    string path; other paths are left as they are. *)
Definition strip_leading_dot (path : jsvalue) : jsvalue :=
  match as_string path with
  | Some s => if startsWith s "." then VStr (replace s "." "") else path
  | None => path
  end.

(** [v === 'undefined'], the string *)
Definition is_undefined_string (v : jsvalue) : bool :=
  match v with
  | VStr s => jsstring_eqb s "undefined"
  | _ => false
  end.

(** [path.length]: reading a property of [undefined] or [null] throws. *)
Definition get_length (path : jsvalue) : completion jsvalue :=
  match path with
  | VUndefined | VNull => TypeError
  | VStr s | VStringObj s => Returned (VNum (len s))
  | VArr items => Returned (VNum (Z.of_nat (length items)))
  | VObj props =>
      match find (fun kv => jsstring_eqb (fst kv) "length") props with
      | Some kv => Returned (snd kv)
      | None => Returned VUndefined
      end
  | VBool _ | VNum _ => Returned VUndefined
  end.

Section Lodash.

(** lodash's [baseGet(object, path)]: the value at [path] of [object],
    [undefined] when the path does not resolve. *)
Variable baseGet : jsvalue -> jsvalue -> jsvalue.

(** lodash's [set(object, path, value)]. *)
Variable lodashSet : jsvalue -> jsvalue -> jsvalue -> jsvalue.

(** lodash's [get(object, path, defaultValue)]: the default stands in for
    an [undefined] resolved value. *)
Definition lodashGet (object path defaultValue : jsvalue) : jsvalue :=
  let result :=
    match object with
    | VUndefined | VNull => VUndefined
    | _ => baseGet object path
    end in
  match result with
  | VUndefined => defaultValue
  | _ => result
  end.

(** [get(collection, path, def)] *)
Definition get (collection path def : jsvalue) : completion jsvalue :=
  if negb (usable_path path) then Returned collection
  else
    let path := strip_leading_dot path in
    let result := lodashGet collection path (VStr "undefined") in
    if is_undefined_string result then
      match as_string path with
      | Some s =>
          Returned (lodashGet collection (VArr (map VStr (explodePath s)))
                      (VStr "undefined"))
      | None => TypeError
      end
    else Returned result.

(** [set(collection, path, value)] *)
Definition set (collection path value : jsvalue) : completion jsvalue :=
  match get_length path with
  | TypeError => TypeError
  | Returned n =>
      match n with
      | VNum 0 => Returned value
      | _ =>
          if negb (usable_path path) then Returned collection
          else Returned (lodashSet collection (strip_leading_dot path) value)
      end
  end.

End Lodash.

(** A lookup by own property names, an instance of [baseGet] to run [get]
    on: a string path names one property, an array path a chain of them. *)
Fixpoint own_property (object : jsvalue) (names : list jsstring) : jsvalue :=
  match names with
  | [] => object
  | name :: names' =>
      match object with
      | VObj props =>
          match find (fun kv => jsstring_eqb (fst kv) name) props with
          | Some kv => own_property (snd kv) names'
          | None => VUndefined
          end
      | _ => VUndefined
      end
  end.

Definition names_of (path : jsvalue) : list jsstring :=
  match path with
  | VStr s | VStringObj s => [s]
  | VArr items =>
      flat_map (fun v => match as_string v with Some s => [s] | None => [] end)
        items
  | _ => []
  end.

Definition lookup_names (object path : jsvalue) : jsvalue :=
  own_property object (names_of path).

(** ** isPathStartDynamic and getFirstDynamicVariableName *)

(** [isPathStartDynamic(path)] on a string [path]:
    [[0, 1].includes(path.indexOf('{'))]. *)
Definition isPathStartDynamic (path : jsstring) : bool :=
  existsb (Z.eqb (indexOf path "{" 0)) [0; 1].

(** The regular expression [/[^{{\}\}]+(?=\}\})/] as a backtracking matcher
    runs it.  The class [[^{{\}\}]] takes every character but the braces. *)
Definition in_class (c : ascii) : bool :=
  negb (Ascii.eqb c "{" || Ascii.eqb c "}").

(** The greedy [+]: how many characters of the class start [s]. *)
Fixpoint class_run (s : jsstring) : nat :=
  match s with
  | c :: s' => if in_class c then S (class_run s') else O
  | [] => O
  end.

(** Backtracking from [n] characters down to one, the first length after
    which the lookahead [(?=\}\})] succeeds gives the match. *)
Fixpoint lookahead_from (s : jsstring) (n : nat) : option jsstring :=
  match n with
  | O => None
  | S m =>
      if startsWith (skipn n s) "}}" then Some (firstn n s)
      else lookahead_from s m
  end.

(** The match attempted at the start of [s]. *)
Definition match_here (s : jsstring) : option jsstring :=
  lookahead_from s (class_run s).

(** [path.match(regex)]: the attempt is made at each index in turn, the
    leftmost success is the match, [null] when there is none. *)
Fixpoint regex_match (s : jsstring) : option jsstring :=
  match match_here s with
  | Some m => Some m
  | None =>
      match s with
      | [] => None
      | _ :: s' => regex_match s'
      end
  end.

(** [getFirstDynamicVariableName(path)] on a string [path]: indexing the
    [null] of a failed match throws. *)
Definition getFirstDynamicVariableName (path : jsstring) : completion jsstring :=
  match regex_match path with
  | Some m => Returned m
  | None => TypeError
  end.

(** [pieces.join(separator)] *)
Fixpoint join (pieces : list jsstring) (separator : jsstring) : jsstring :=
  match pieces with
  | [] => []
  | [piece] => piece
  | piece :: rest => piece ++ separator ++ join rest separator
  end.

(** The path as callers get it back from an explosion: the fragments of
    [path] imploded again. *)
Definition normalized (path : jsstring) : jsstring :=
  implodePath (map VStr (explodePath path)).

(** ** Vocabulary of the properties *)

Definition lbracket : ascii := "["%char.
Definition dot : ascii := "."%char.

(** A piece is [plain] when no ['['] follows its first character: the loop
    of [explodePath] leaves such a piece whole. *)
Definition plain (f : jsstring) : Prop := ~ In lbracket (tl f).

(** Where the loop cuts a piece that is not plain. *)
Definition cut_index (partial : jsstring) : nat :=
  Z.to_nat (indexOf partial [lbracket] 1).

(** What the loop pushes for one piece. *)
Definition pieces_of (partial : jsstring) : list jsstring :=
  explode_partial partial [].

(** The test [q.slice(1)] of the second pass of [explodePath]. *)
Definition kept (q : jsstring) : bool :=
  match slice_from q 1 with
  | [] => false
  | _ :: _ => true
  end.

(** What [explodePath] returns: fragments of two characters or more, free
    of dots, with no ['['] past the first character. *)
Definition fragment_ok (f : jsstring) : Prop :=
  (2 <= length f)%nat /\ ~ In dot f /\ plain f.

(** Put a character in front of the first piece of a split. *)
Definition on_head (a : ascii) (pieces : list jsstring) : list jsstring :=
  match pieces with
  | h :: t => (a :: h) :: t
  | [] => []
  end.

(** The shape the specification gives to an array fragment: a leading
    ['['], a [']'] at some index [e > 0], and no [','] at an index from [2]
    up to [e]. *)
Definition array_shape (s : jsstring) : Prop :=
  nth_error s 0 = Some "["%char
  /\ exists e, (0 < e)%nat /\ nth_error s e = Some "]"%char
       /\ forall i, (2 <= i < e)%nat -> nth_error s i <> Some ","%char.

(** The subpath of the first [k] fragments. *)
Definition prefix_path (fragments : list jsstring) (k : nat) : jsstring :=
  implodePath (map VStr (firstn k fragments)).

(** A fragment that is not of class 'array'. *)
Definition not_array (ep : jsstring) : bool :=
  negb (jsstring_eqb (getStartType (VStr ep)) "array").

(** [getStartType(fragment) === 'unknown'] *)
Definition classified_unknown (fragment : jsvalue) : bool :=
  jsstring_eqb (getStartType fragment) "unknown".

(** String literals unfold to the lists of their characters. *)
Ltac literals := cbn [list_ascii_of_string] in *.

(** * Properties *)

(** ** Searching for one character *)

Section CharSearch.

Variable c : ascii.

Lemma search_char_nil k : search [c] [] k = None.
Proof. reflexivity. Qed.

Lemma search_char_cons a s k :
  search [c] (a :: s) k = if Ascii.eqb c a then Some k else search [c] s (S k).
Proof. cbn [search startsWith]. rewrite andb_true_r. reflexivity. Qed.

Lemma search_char_spec s k :
  match search [c] s k with
  | Some i => (k <= i)%nat /\ nth_error s (i - k) = Some c
              /\ forall j, (j < i - k)%nat -> nth_error s j <> Some c
  | None => forall j, nth_error s j <> Some c
  end.
Proof.
  revert k; induction s as [|a s IH]; intros k.
  - cbn. intros [|j]; discriminate.
  - rewrite search_char_cons. destruct (Ascii.eqb_spec c a) as [->|Hne].
    + rewrite Nat.sub_diag. repeat split; [lia|]. intros j Hj; lia.
    + specialize (IH (S k)). destruct (search [c] s (S k)) as [i|].
      * destruct IH as (Hle & Hnth & Hbefore).
        replace (i - k)%nat with (S (i - S k)) by lia.
        repeat split; [lia | exact Hnth |].
        intros [|j] Hj; cbn; [congruence | apply Hbefore; lia].
      * intros [|j]; cbn; [congruence | apply IH].
Qed.

Lemma search_char_app x y k :
  search [c] (x ++ y) k =
  match search [c] x k with
  | Some i => Some i
  | None => search [c] y (k + length x)
  end.
Proof.
  revert k; induction x as [|a x IH]; intros k.
  - cbn [app length]. rewrite search_char_nil, Nat.add_0_r. reflexivity.
  - cbn [app length]. rewrite !search_char_cons.
    destruct (Ascii.eqb c a); [reflexivity|].
    rewrite IH. replace (S k + length x)%nat with (k + S (length x))%nat by lia.
    reflexivity.
Qed.

Lemma search_char_None s k : search [c] s k = None <-> ~ In c s.
Proof.
  revert k; induction s as [|a s IH]; intros k.
  - cbn; tauto.
  - rewrite search_char_cons. destruct (Ascii.eqb_spec c a) as [->|Hne].
    + split; [discriminate | intros H; exfalso; apply H; left; reflexivity].
    + rewrite IH. cbn. intuition congruence.
Qed.

(** [indexOf] from position [1], the form the tokenizer uses. *)
Lemma indexOf1_nil : indexOf [] [c] 1 = -1.
Proof. reflexivity. Qed.

Lemma indexOf1_cons a s :
  indexOf (a :: s) [c] 1 =
  match search [c] s 1 with Some k => Z.of_nat k | None => -1 end.
Proof.
  unfold indexOf, len. cbn [length].
  replace (Z.to_nat (Z.min (Z.max 1 0) (Z.of_nat (S (length s))))) with 1%nat by lia.
  reflexivity.
Qed.

Lemma indexOf1_none s : indexOf s [c] 1 = -1 <-> ~ In c (tl s).
Proof.
  destruct s as [|a s]; [cbn; intuition|].
  rewrite indexOf1_cons. cbn [tl]. rewrite <- (search_char_None s 1).
  destruct (search [c] s 1); split; intros H; try reflexivity; try discriminate; lia.
Qed.

End CharSearch.

(** ** The loop of the tokenizer *)

Lemma explode_partial_plain partial result :
  plain partial -> explode_partial partial result = result ++ [partial].
Proof.
  intros H. apply indexOf1_none in H.
  rewrite explode_partial_equation_1.
  destruct (Z.eq_dec _ _) as [E|E]; [reflexivity | contradiction].
Qed.

Lemma cut_index_range partial :
  ~ plain partial -> (1 <= cut_index partial < length partial)%nat.
Proof.
  unfold plain, cut_index. rewrite <- indexOf1_none. intros H.
  pose proof (indexOf_char_range _ _ _ eq_refl H) as Hr. unfold len in Hr. lia.
Qed.

Lemma explode_partial_cut partial result :
  ~ plain partial ->
  explode_partial partial result =
  explode_partial (skipn (cut_index partial) partial)
    (result ++ [firstn (cut_index partial) partial]).
Proof.
  intros H. pose proof (cut_index_range _ H) as Hr.
  unfold plain in H. rewrite <- indexOf1_none in H. unfold cut_index in *.
  rewrite explode_partial_equation_1.
  destruct (Z.eq_dec _ _) as [E|E]; [contradiction|].
  rewrite explode_partial_clause_1_equation_2. cbv zeta.
  literals. fold lbracket.
  rewrite getRemainingString_prefix by (unfold len; lia).
  rewrite slice_prefix by (unfold len; lia). reflexivity.
Qed.

Lemma plain_dec f : {plain f} + {~ plain f}.
Proof.
  unfold plain. destruct (in_dec Ascii.ascii_dec lbracket (tl f)); [right|left]; tauto.
Qed.

(** The pushes of the loop do not depend on what was pushed before. *)
Lemma explode_partial_result partial result :
  explode_partial partial result = result ++ explode_partial partial [].
Proof.
  remember (length partial) as n eqn:Hn.
  revert partial Hn result.
  induction n as [n IH] using lt_wf_ind; intros partial Hn result.
  destruct (plain_dec partial) as [Hp|Hp].
  - rewrite !explode_partial_plain by exact Hp. reflexivity.
  - pose proof (cut_index_range _ Hp) as Hr.
    rewrite (explode_partial_cut partial result), (explode_partial_cut partial [])
      by exact Hp.
    assert (Hlt : (length (skipn (cut_index partial) partial) < n)%nat)
      by (rewrite length_skipn; lia).
    rewrite (IH _ Hlt _ eq_refl (result ++ _)).
    rewrite (IH _ Hlt _ eq_refl ([] ++ _)).
    rewrite <- app_assoc. reflexivity.
Qed.

Lemma not_plain_app x y : ~ plain x -> ~ plain (x ++ y).
Proof.
  unfold plain. intros H F. apply H. intros Hin. apply F.
  destruct x as [|a x]; [contradiction|]. cbn in *. apply in_or_app; left; exact Hin.
Qed.

Lemma cut_index_app_l x y : ~ plain x -> cut_index (x ++ y) = cut_index x.
Proof.
  unfold plain, cut_index. intros H.
  destruct x as [|a x]; [exfalso; apply H; intros []|].
  cbn [app tl] in *. rewrite !indexOf1_cons, search_char_app.
  destruct (search [lbracket] x 1) eqn:E; [reflexivity|].
  apply search_char_None in E. tauto.
Qed.

Lemma cut_index_app_r x y :
  x <> [] -> plain x -> cut_index (x ++ lbracket :: y) = length x.
Proof.
  unfold plain, cut_index. intros Hx H.
  destruct x as [|a x]; [congruence|].
  cbn [app tl length] in *. rewrite indexOf1_cons, search_char_app.
  apply search_char_None with (k := 1%nat) in H. rewrite H.
  rewrite search_char_cons. unfold lbracket at 1 2. cbn. lia.
Qed.

Lemma not_plain_bracket x y : x <> [] -> ~ plain (x ++ lbracket :: y).
Proof.
  unfold plain. intros Hx F. apply F.
  destruct x as [|a x]; [congruence|]. cbn.
  apply in_or_app; right; left; reflexivity.
Qed.

(** A bracketed piece appended to a non-empty piece is cut off whole. *)
Lemma explode_partial_app_bracket x y result :
  x <> [] -> ~ In lbracket y ->
  explode_partial (x ++ lbracket :: y) result =
  explode_partial x result ++ [lbracket :: y].
Proof.
  intros Hx Hy.
  remember (length x) as n eqn:Hn. revert x Hn Hx result.
  induction n as [n IH] using lt_wf_ind; intros x Hn Hx result.
  rewrite explode_partial_cut by (apply not_plain_bracket; exact Hx).
  destruct (plain_dec x) as [Hp|Hp].
  - rewrite cut_index_app_r by assumption.
    rewrite skipn_app, firstn_app, Nat.sub_diag, skipn_all, firstn_all.
    cbn [skipn firstn app]. rewrite app_nil_r.
    rewrite (explode_partial_plain (lbracket :: y)) by exact Hy.
    rewrite (explode_partial_plain x) by exact Hp. reflexivity.
  - pose proof (cut_index_range _ Hp) as Hr.
    rewrite cut_index_app_l by exact Hp.
    rewrite (explode_partial_cut x) by exact Hp.
    rewrite skipn_app, firstn_app.
    replace (cut_index x - length x)%nat with 0%nat by lia.
    cbn [skipn firstn]. rewrite app_nil_r.
    apply (IH (length (skipn (cut_index x) x))); [rewrite length_skipn; lia | reflexivity |].
    intros E. apply (f_equal (@length _)) in E. rewrite length_skipn in E. cbn in E. lia.
Qed.

Lemma plain_firstn_cut partial :
  ~ plain partial -> plain (firstn (cut_index partial) partial).
Proof.
  intros Hp. pose proof (cut_index_range _ Hp) as Hr.
  unfold plain, cut_index in *. destruct partial as [|a t]; [cbn in Hr; lia|].
  rewrite indexOf1_cons in *. pose proof (search_char_spec lbracket t 1) as Hs.
  destruct (search [lbracket] t 1) as [k|]; [|cbn in Hr; lia].
  destruct Hs as (Hk & _ & Hbefore). rewrite Nat2Z.id.
  destruct k as [|k]; [lia|]. cbn [firstn tl]. rewrite Nat.sub_succ, Nat.sub_0_r in Hbefore.
  intros Hin. apply In_nth_error in Hin. destruct Hin as [j Hj].
  assert (Hjk : (j < k)%nat).
  { assert (Hsome : nth_error (firstn k t) j <> None) by congruence.
    apply nth_error_Some in Hsome. rewrite length_firstn in Hsome. lia. }
  rewrite nth_error_firstn in Hj.
  destruct (Nat.ltb_spec j k); [|lia]. exact (Hbefore j Hjk Hj).
Qed.

(** Every piece the loop pushes is plain and made of characters of the
    piece it was cut from. *)
Lemma explode_partial_pieces partial :
  Forall (fun f => plain f /\ incl f partial) (explode_partial partial []).
Proof.
  remember (length partial) as n eqn:Hn. revert partial Hn.
  induction n as [n IH] using lt_wf_ind; intros partial Hn.
  destruct (plain_dec partial) as [Hp|Hp].
  - rewrite explode_partial_plain by exact Hp. repeat constructor; [exact Hp | apply incl_refl].
  - pose proof (cut_index_range _ Hp) as Hr.
    rewrite explode_partial_cut, explode_partial_result by exact Hp.
    cbn [app]. constructor.
    + split; [apply plain_firstn_cut; exact Hp |].
      intros ch Hch. rewrite <- (firstn_skipn (cut_index partial) partial).
      apply in_or_app; left; exact Hch.
    + assert (Hlt : (length (skipn (cut_index partial) partial) < n)%nat)
        by (rewrite length_skipn; lia).
      specialize (IH _ Hlt _ eq_refl).
      eapply Forall_impl; [|exact IH].
      cbn beta. intros f [Hf Hincl]. split; [exact Hf|].
      intros ch Hch. apply Hincl in Hch.
      rewrite <- (firstn_skipn (cut_index partial) partial).
      apply in_or_app; right; exact Hch.
Qed.

(** ** Splitting at one character *)

Section CharSplit.

Variable c : ascii.

Lemma split_char_nil : split [] [c] = [ [] ].
Proof. reflexivity. Qed.

Lemma split_char_cons a s :
  split (a :: s) [c] =
  if Ascii.eqb c a then [] :: split s [c] else on_head a (split s [c]).
Proof.
  unfold split. cbn [split_from startsWith length Nat.sub]. rewrite andb_true_r.
  destruct (Ascii.eqb c a); destruct (split_from [c] 0 s); reflexivity.
Qed.

Lemma split_char_nonempty s : split s [c] <> [].
Proof. unfold split. destruct (split_from [c] 0 s). discriminate. Qed.

Lemma split_char_whole f : ~ In c f -> split f [c] = [f].
Proof.
  induction f as [|a f IH]; intros H; [reflexivity|].
  rewrite split_char_cons. destruct (Ascii.eqb_spec c a) as [->|Hne].
  - exfalso; apply H; left; reflexivity.
  - rewrite IH; [reflexivity|]. intros Hin; apply H; right; exact Hin.
Qed.

Lemma split_char_app_sep s y :
  split (s ++ c :: y) [c] = split s [c] ++ split y [c].
Proof.
  induction s as [|a s IH].
  - cbn [app]. rewrite split_char_cons, Ascii.eqb_refl. reflexivity.
  - cbn [app]. rewrite !split_char_cons, IH.
    destruct (Ascii.eqb c a); [reflexivity|].
    pose proof (split_char_nonempty s) as Hne.
    destruct (split s [c]); [congruence | reflexivity].
Qed.

(** Appending text without the separator extends the last piece. *)
Lemma split_char_app_last s y :
  ~ In c y ->
  exists init last,
    split s [c] = init ++ [last] /\ split (s ++ y) [c] = init ++ [last ++ y].
Proof.
  intros Hy. induction s as [|a s (init & last & Hs & Hsy)].
  - exists [], []. cbn [app]. rewrite (split_char_whole y Hy). split; reflexivity.
  - cbn [app]. rewrite !split_char_cons, Hs, Hsy.
    destruct (Ascii.eqb c a).
    + exists ([] :: init), last. split; reflexivity.
    + destruct init as [|i0 init].
      * exists [], (a :: last). split; reflexivity.
      * exists ((a :: i0) :: init), last. split; reflexivity.
Qed.

Lemma split_char_pieces s : Forall (fun piece => ~ In c piece) (split s [c]).
Proof.
  induction s as [|a s IH].
  - repeat constructor. intros [].
  - rewrite split_char_cons. destruct (Ascii.eqb_spec c a) as [->|Hne].
    + constructor; [intros [] | exact IH].
    + destruct (split s [c]) as [|h t]; [constructor|].
      inversion IH as [|? ? Hh Ht]; subst. constructor; [|exact Ht].
      cbn. intros [E|Hin]; [congruence | exact (Hh Hin)].
Qed.

End CharSplit.

(** ** The tokenizer as a filter of the pieces *)

Lemma kept_length q : kept q = true <-> (2 <= length q)%nat.
Proof.
  unfold kept, slice_from, relative_index, len.
  destruct q as [|a [|b q]].
  - cbn. split; [discriminate | lia].
  - cbn. split; [discriminate | lia].
  - replace (Z.to_nat _) with 1%nat
      by (destruct (Z.ltb_spec 1 0); cbn [length]; lia).
    cbn [skipn length]. split; [lia | reflexivity].
Qed.

Lemma explodePath_filter path :
  explodePath path = filter kept (flat_map pieces_of (split path ".")).
Proof.
  unfold explodePath.
  assert (H1 : forall l acc,
             fold_left (fun result partial => explode_partial partial result) l acc
             = acc ++ flat_map pieces_of l).
  { induction l as [|p l IH]; intros acc; cbn [fold_left flat_map].
    - rewrite app_nil_r; reflexivity.
    - rewrite IH, explode_partial_result, <- app_assoc. reflexivity. }
  assert (H2 : forall l acc,
             fold_left (fun result q => match slice_from q 1 with
                                        | [] => result
                                        | _ :: _ => result ++ [q]
                                        end) l acc
             = acc ++ filter kept l).
  { induction l as [|q l IH]; intros acc; cbn [fold_left filter].
    - rewrite app_nil_r; reflexivity.
    - rewrite IH. unfold kept. destruct (slice_from q 1); [reflexivity|].
      rewrite <- app_assoc. reflexivity. }
  rewrite H1, H2. reflexivity.
Qed.

Lemma explodePath_fragments path : Forall fragment_ok (explodePath path).
Proof.
  rewrite explodePath_filter. apply Forall_forall. intros f Hf.
  apply filter_In in Hf. destruct Hf as [Hin Hk].
  apply in_flat_map in Hin. destruct Hin as (piece & Hpiece & Hin).
  pose proof (split_char_pieces dot path) as Hs.
  rewrite Forall_forall in Hs. specialize (Hs _ Hpiece).
  pose proof (explode_partial_pieces piece) as He.
  rewrite Forall_forall in He. destruct (He _ Hin) as [Hplain Hincl].
  repeat split; [apply kept_length; exact Hk | | exact Hplain].
  intros Hd. apply Hs, Hincl, Hd.
Qed.

Lemma explodePath_single f : fragment_ok f -> explodePath f = [f].
Proof.
  intros (Hlen & Hdot & Hplain). rewrite explodePath_filter. literals. fold dot.
  rewrite split_char_whole by exact Hdot. cbn [flat_map]. unfold pieces_of.
  rewrite explode_partial_plain by exact Hplain. cbn [app filter].
  apply kept_length in Hlen. rewrite Hlen. reflexivity.
Qed.

Lemma explodePath_app_dot s f :
  fragment_ok f -> explodePath (s ++ dot :: f) = explodePath s ++ [f].
Proof.
  intros (Hlen & Hdot & Hplain). rewrite !explodePath_filter. literals. fold dot.
  rewrite split_char_app_sep, flat_map_app, filter_app.
  rewrite (split_char_whole dot f Hdot). cbn [flat_map]. unfold pieces_of at 2.
  rewrite explode_partial_plain by exact Hplain. cbn [app filter].
  apply kept_length in Hlen. rewrite Hlen. reflexivity.
Qed.

Lemma explodePath_app_bracket s y :
  y <> [] -> ~ In dot y -> ~ In lbracket y ->
  explodePath (s ++ lbracket :: y) = explodePath s ++ [lbracket :: y].
Proof.
  intros Hy Hdot Hbr. rewrite !explodePath_filter. literals. fold dot.
  destruct (split_char_app_last dot s (lbracket :: y)) as (init & last & -> & ->).
  { cbn. intros [E|Hin]; [discriminate | exact (Hdot Hin)]. }
  rewrite !flat_map_app, !filter_app. cbn [flat_map]. rewrite !app_nil_r.
  rewrite <- app_assoc. f_equal.
  assert (Hk : kept (lbracket :: y) = true).
  { apply kept_length. destruct y; [congruence | cbn; lia]. }
  unfold pieces_of. destruct last as [|a last].
  - cbn [app]. rewrite !explode_partial_plain by (unfold plain; cbn; tauto).
    cbn [app filter]. rewrite Hk. reflexivity.
  - rewrite explode_partial_app_bracket by (discriminate || exact Hbr).
    rewrite filter_app. cbn [filter]. rewrite Hk. reflexivity.
Qed.

(** ** Classification and the detokenizer *)

Lemma jsstring_eqb_eq a b : jsstring_eqb a b = true <-> a = b.
Proof.
  revert b; induction a as [|x a IH]; intros [|y b]; cbn; split; intros H;
    try reflexivity; try discriminate.
  - apply andb_true_iff in H. destruct H as [Hx Ha].
    apply Ascii.eqb_eq in Hx. apply IH in Ha. congruence.
  - injection H as -> ->. rewrite Ascii.eqb_refl. cbn. apply IH. reflexivity.
Qed.

Lemma getStartType_cases v :
  getStartType v = "array" \/ getStartType v = "object"
  \/ getStartType v = "unknown".
Proof.
  unfold getStartType. destruct (as_string v) as [s|]; [|tauto].
  destruct (0 <? len s); [|tauto].
  destruct (_ && _); [|tauto].
  destruct (_ =? _); tauto.
Qed.

Lemma getStartType_array_head v :
  getStartType v = "array" ->
  exists s, as_string v = Some s /\ hd_error s = Some lbracket.
Proof.
  unfold getStartType. destruct (as_string v) as [s|]; [|discriminate].
  destruct (0 <? len s); [|discriminate].
  destruct s as [|ch s]; cbn [nth_error]; [discriminate|].
  destruct (Ascii.eqb_spec ch "[") as [->|]; cbn [andb]; [|discriminate].
  intros _. exists (lbracket :: s). split; reflexivity.
Qed.

Lemma getStartType_unknown v :
  getStartType v = "unknown" <->
  match as_string v with Some s => s = [] | None => True end.
Proof.
  unfold getStartType. destruct (as_string v) as [s|]; [|tauto].
  destruct s as [|ch s]; [cbn; tauto|].
  replace (0 <? len (ch :: s)) with true
    by (symmetry; apply Z.ltb_lt; unfold len; cbn [length]; lia).
  split; [|discriminate].
  destruct (_ && _); [destruct (_ =? _)|]; discriminate.
Qed.

(** The reducer on a fragment of each class. *)
Lemma implode_step_object path fragment :
  getStartType fragment = "object" ->
  implode_step path fragment =
  match path with
  | [] => interpolate fragment
  | _ :: _ => path ++ dot :: interpolate fragment
  end.
Proof.
  unfold implode_step. intros ->. destruct path; reflexivity.
Qed.

Lemma implode_step_array path fragment :
  getStartType fragment = "array" ->
  implode_step path fragment = path ++ interpolate fragment.
Proof. unfold implode_step. intros ->. reflexivity. Qed.

Lemma implode_step_unknown path fragment :
  getStartType fragment = "unknown" -> implode_step path fragment = path.
Proof. unfold implode_step. intros ->. reflexivity. Qed.

Lemma implodePath_snoc fragments fragment :
  implodePath (fragments ++ [fragment]) =
  implode_step (implodePath fragments) fragment.
Proof. unfold implodePath. rewrite fold_left_app. reflexivity. Qed.

(** ** Round trip *)

Lemma explode_implode fragments :
  Forall fragment_ok fragments ->
  explodePath (implodePath (map VStr fragments)) = fragments.
Proof.
  induction fragments as [|f fragments IH] using rev_ind; intros Hok.
  - reflexivity.
  - apply Forall_app in Hok. destruct Hok as [Hfs Hf].
    inversion Hf as [|? ? Hf' _]; subst. specialize (IH Hfs).
    rewrite map_app. cbn [map]. rewrite implodePath_snoc.
    destruct (getStartType_cases (VStr f)) as [Ht|[Ht|Ht]].
    + rewrite implode_step_array by exact Ht. cbn [interpolate as_string].
      destruct (getStartType_array_head _ Ht) as (s & [= <-] & Hhd).
      destruct Hf' as (Hlen & Hdot & Hplain).
      destruct f as [|ch y]; [discriminate|]. injection Hhd as ->.
      rewrite explodePath_app_bracket, IH; [reflexivity | | |].
      * destruct y; [cbn in Hlen; lia | discriminate].
      * intros Hin. apply Hdot. right. exact Hin.
      * exact Hplain.
    + rewrite implode_step_object by exact Ht. cbn [interpolate as_string].
      destruct (implodePath (map VStr fragments)) eqn:E.
      * rewrite <- IH. cbn [app]. apply explodePath_single. exact Hf'.
      * rewrite explodePath_app_dot, IH by exact Hf'. reflexivity.
    + apply getStartType_unknown in Ht. cbn [as_string] in Ht. subst f.
      destruct Hf' as (Hlen & _). cbn in Hlen. lia.
Qed.

(** C2: exploding a path, imploding the fragments and exploding again gives
    the fragments of the first explosion.  This holds for every string, so in
    particular for every path in canonical dot and bracket syntax without a
    leading dot. *)
Theorem explode_implode_explode (p : jsstring) :
  explodePath (implodePath (map VStr (explodePath p))) = explodePath p.
Proof. apply explode_implode, explodePath_fragments. Qed.

(** C1: the fragments of ['lorem.ipsum[2][1].foo'] are, in this order,
    ['lorem'], ['ipsum'], ['[2]'], ['[1]'] and ['foo']. *)
Theorem explodePath_lorem :
  explodePath "lorem.ipsum[2][1].foo"
  = strings ["lorem"; "ipsum"; "[2]"; "[1]"; "foo"].
Proof. reflexivity. Qed.

(** ** The classifier *)

Lemma indexOf_char_spec s c p :
  (indexOf s [c] (Z.of_nat p) = -1
   /\ forall i, (p <= i)%nat -> nth_error s i <> Some c)
  \/ (exists k, indexOf s [c] (Z.of_nat p) = Z.of_nat k
       /\ (p <= k)%nat /\ nth_error s k = Some c
       /\ forall i, (p <= i < k)%nat -> nth_error s i <> Some c).
Proof.
  unfold indexOf, len.
  set (start := Z.to_nat (Z.min (Z.max (Z.of_nat p) 0) (Z.of_nat (length s)))).
  assert (Hstart : start = Nat.min p (length s)) by (subst start; lia).
  pose proof (search_char_spec c (skipn start s) start) as Hs.
  destruct (search [c] (skipn start s) start) as [k|].
  - right. exists k. destruct Hs as (Hle & Hnth & Hbefore).
    rewrite nth_error_skipn in Hnth.
    replace (start + (k - start))%nat with k in Hnth by lia.
    assert (Hk : (k < length s)%nat) by (apply nth_error_Some; congruence).
    repeat split; [lia | exact Hnth |].
    intros i Hi. specialize (Hbefore (i - start)%nat ltac:(lia)).
    rewrite nth_error_skipn in Hbefore.
    replace (start + (i - start))%nat with i in Hbefore by lia. exact Hbefore.
  - left. split; [reflexivity|]. intros i Hi.
    specialize (Hs (i - start)%nat). rewrite nth_error_skipn in Hs.
    replace (start + (i - start))%nat with i in Hs by lia. exact Hs.
Qed.

Lemma substring_prefix s e :
  (e <= length s)%nat -> substring s 0 (Z.of_nat e) = firstn e s.
Proof.
  intros H. unfold substring, len.
  replace (Z.to_nat (Z.min (Z.max 0 0) (Z.of_nat (length s)))) with 0%nat by lia.
  replace (Z.to_nat (Z.min (Z.max (Z.of_nat e) 0) (Z.of_nat (length s)))) with e by lia.
  rewrite Nat.max_0_l, Nat.min_0_l, Nat.sub_0_r. reflexivity.
Qed.

Lemma getStartType_array_iff v :
  getStartType v = "array" <-> exists s, as_string v = Some s /\ array_shape s.
Proof.
  unfold getStartType, array_shape. destruct (as_string v) as [s|].
  2:{ split; [discriminate | intros (s & [=] & _)]. }
  destruct s as [|ch s].
  { cbn. split; [discriminate | intros (s & [= <-] & [=] & _)]. }
  replace (0 <? len (ch :: s)) with true
    by (symmetry; apply Z.ltb_lt; unfold len; cbn [length]; lia).
  cbn [nth_error]. literals.
  destruct (indexOf_char_spec (ch :: s) "]" 1) as [(Hi & Hnone)|(k & Hi & Hk & Hnth & Hbefore)];
    change (Z.of_nat 1) with 1 in Hi; rewrite Hi.
  - rewrite andb_false_r. split; [discriminate|].
    intros (s' & [= <-] & _ & e & He & Hnth & _). exfalso. apply (Hnone e); [lia | exact Hnth].
  - replace (-1 <? Z.of_nat k) with true by (symmetry; apply Z.ltb_lt; lia).
    rewrite andb_true_r.
    assert (Hklen : (k <= length (ch :: s))%nat).
    { apply Nat.lt_le_incl, nth_error_Some. congruence. }
    rewrite substring_prefix by exact Hklen.
    destruct (Ascii.eqb_spec ch "[") as [->|Hch].
    2:{ split; [discriminate | intros (s' & [= <-] & [= E] & _); congruence]. }
    destruct (indexOf_char_spec (firstn k ("["%char :: s)) "," 2)
      as [(Hc & Hcnone)|(j & Hc & Hj & Hjnth & _)];
      change (Z.of_nat 2) with 2 in Hc; rewrite Hc.
    + rewrite Z.eqb_refl. split; [intros _|reflexivity].
      eexists; split; [reflexivity|]. split; [reflexivity|].
      exists k. repeat split; [lia | exact Hnth |].
      intros i Hi2 Hcomma. apply (Hcnone i); [lia|].
      rewrite nth_error_firstn. destruct (Nat.ltb_spec i k); [exact Hcomma | lia].
    + replace (Z.of_nat j =? -1) with false by (symmetry; apply Z.eqb_neq; lia).
      split; [discriminate|].
      intros (s' & [= <-] & _ & e & He & Henth & Hnocomma). exfalso.
      rewrite nth_error_firstn in Hjnth.
      destruct (Nat.ltb_spec j k) as [Hjk|]; [|discriminate].
      assert (Hke : (k <= e)%nat).
      { destruct (Nat.le_gt_cases k e) as [|Hlt]; [assumption|].
        exfalso. apply (Hbefore e); [lia | exact Henth]. }
      apply (Hnocomma j); [lia | exact Hjnth].
Qed.

(** C3: [getStartType] answers 'array' exactly for the strings of the array
    shape, 'object' for every other non-empty string, and 'unknown' for the
    empty string and for values that are not strings; ['[1,2]'] is an
    'object'. *)
Theorem getStartType_classifies (v : jsvalue) :
  (getStartType v = "array" <->
   exists s, as_string v = Some s /\ array_shape s)
  /\ (getStartType v = "object" <->
      exists s, as_string v = Some s /\ s <> [] /\ ~ array_shape s)
  /\ (getStartType v = "unknown" <->
      as_string v = None \/ as_string v = Some [])
  /\ getStartType (VStr "[1,2]") = "object".
Proof.
  pose proof (getStartType_array_iff v) as Harr.
  pose proof (getStartType_unknown v) as Hunk.
  repeat split; try (apply Harr).
  - intros Hobj. destruct (as_string v) as [s|] eqn:Es.
    + exists s. split; [reflexivity|]. split.
      * intros ->. destruct Hunk as [_ Hu]. rewrite Hu in Hobj by reflexivity. discriminate.
      * intros Hshape. destruct Harr as [_ Ha].
        rewrite Ha in Hobj by (exists s; tauto). discriminate.
    + destruct Hunk as [_ Hu]. rewrite Hu in Hobj by exact I. discriminate.
  - intros (s & Es & Hne & Hshape).
    destruct (getStartType_cases v) as [Ht|[Ht|Ht]]; [| exact Ht |].
    + exfalso. apply Harr in Ht. destruct Ht as (s' & Es' & Hs').
      rewrite Es in Es'. injection Es' as <-. exact (Hshape Hs').
    + exfalso. apply Hunk in Ht. rewrite Es in Ht. exact (Hne Ht).
  - intros Ht. apply Hunk in Ht.
    destruct (as_string v) as [s|]; [right; rewrite Ht | left]; reflexivity.
  - intros [E|E]; apply Hunk; rewrite E; [exact I | reflexivity].
Qed.

(** ** Fragments of unknown class *)

Lemma fold_implode_skips_unknown fragments path :
  fold_left implode_step fragments path =
  fold_left implode_step
    (filter (fun f => negb (classified_unknown f)) fragments) path.
Proof.
  revert path; induction fragments as [|f fragments IH]; intros path.
  - reflexivity.
  - cbn [filter fold_left]. unfold classified_unknown at 1.
    destruct (getStartType_cases f) as [Ht|[Ht|Ht]]; rewrite Ht.
    + cbn [negb fold_left]. apply IH.
    + cbn [negb fold_left]. apply IH.
    + rewrite implode_step_unknown by exact Ht. apply IH.
Qed.

Lemma classified_unknown_iff fragment :
  classified_unknown fragment = true <->
  as_string fragment = None \/ as_string fragment = Some [].
Proof.
  unfold classified_unknown. rewrite jsstring_eqb_eq, getStartType_unknown.
  destruct (as_string fragment) as [s|].
  - split; [intros ->; right; reflexivity | intros [H|H]; congruence].
  - split; [left; reflexivity | exact (fun _ => I)].
Qed.

(** A fragment that is interpolated is a string. *)
Lemma classified_is_string fragment :
  classified_unknown fragment = false ->
  as_string fragment = Some (interpolate fragment).
Proof.
  intros H. unfold interpolate.
  destruct (as_string fragment) as [s|] eqn:E; [reflexivity|].
  assert (Hu : classified_unknown fragment = true)
    by (apply classified_unknown_iff; left; exact E).
  congruence.
Qed.

(** C7: [implodePath] of a sequence of fragments is [implodePath] of the
    sequence without its fragments of class 'unknown', which are the empty
    strings and the values that are not strings: such a fragment adds
    neither a separator nor text, and the call returns a string. *)
Theorem implodePath_drops_unknown (fragments : list jsvalue) :
  implodePath fragments =
  implodePath (filter (fun f => negb (classified_unknown f)) fragments)
  /\ forall f, classified_unknown f = true <->
               as_string f = None \/ as_string f = Some [].
Proof.
  split; [apply fold_implode_skips_unknown | apply classified_unknown_iff].
Qed.

(** ** Subpaths *)

Lemma getSubPaths_fold_length (fragments : list jsstring) accumulated result :
  length (snd (fold_left
                 (fun '(accumulatedPath, result) path =>
                    let accumulatedPath := accumulatedPath ++ [path] in
                    (accumulatedPath,
                     result ++ [implodePath (map VStr accumulatedPath)]))
                 fragments (accumulated, result)))
  = (length result + length fragments)%nat.
Proof.
  revert accumulated result.
  induction fragments as [|f fragments IH]; intros accumulated result.
  - cbn. lia.
  - cbn [fold_left]. rewrite IH, length_app. cbn [length]. lia.
Qed.

(** C8, as the code has it: with [n] fragments, [getSubPaths] returns
    [n + 1] subpaths when no flag is set and one less for each flag set,
    but never fewer than none: with both flags set and no fragment the
    result is empty. *)
Theorem getSubPaths_length (p : jsstring) (options : subPathsOptions) :
  Z.of_nat (length (getSubPaths (VStr p) options)) =
  Z.max 0 (Z.of_nat (length (explodePath p)) + 1
           - Z.b2z (with_default false (ignoreRoot options))
           - Z.b2z (with_default false (ignoreFull options))).
Proof.
  unfold getSubPaths. cbn [as_string].
  set (r := with_default false (ignoreRoot options)).
  set (f := with_default false (ignoreFull options)).
  set (result0 := if r then [] else [ [] ] : list jsstring).
  pose proof (getSubPaths_fold_length (explodePath p) [] result0) as Hlen.
  destruct (fold_left _ (explodePath p) ([], result0)) as [acc result].
  cbn [snd] in Hlen.
  assert (H0 : length result0 = if r then 0%nat else 1%nat)
    by (subst result0; destruct r; reflexivity).
  clearbody result0 r f.
  destruct (Z.ltb_spec 0 (Z.of_nat (length result))) as [Hpos|Hzero];
    destruct f; cbn [andb Z.b2z].
  - rewrite removelast_firstn_len, length_firstn.
    destruct r; cbn [Z.b2z]; lia.
  - destruct r; cbn [Z.b2z]; lia.
  - destruct r; cbn [Z.b2z]; lia.
  - destruct r; cbn [Z.b2z]; lia.
Qed.

(** C8, as the specification states it, fails: for the empty path with
    both flags set the result has no element, as it has with [ignoreFull]
    alone, so that setting [ignoreRoot] removes nothing. *)
Lemma getSubPaths_both_flags_no_fragment :
  length (getSubPaths (VStr "")
            {| ignoreRoot := Some true; ignoreFull := Some true |})
  = length (getSubPaths (VStr "")
              {| ignoreRoot := None; ignoreFull := Some true |})
  /\ Z.of_nat (length (getSubPaths (VStr "")
                         {| ignoreRoot := Some true; ignoreFull := Some true |}))
     <> Z.of_nat (length (explodePath "")) + 1 - 1 - 1.
Proof. split; [reflexivity | vm_compute; discriminate]. Qed.

(** ** Removing levels *)

Lemma splice_all {A : Type} (array : list A) deleteCount :
  Z.of_nat (length array) <= deleteCount -> splice array 0 deleteCount = [].
Proof.
  intros H. unfold splice. cbn [Z.ltb Z.compare].
  rewrite Z.min_l by lia. rewrite Z.sub_0_r, Z.min_r by lia.
  cbn [Z.to_nat firstn app Z.add]. rewrite Nat2Z.id. apply skipn_all.
Qed.

(** Removing from the end exactly as many levels as the path has leaves
    nothing. *)
Lemma removePathLevels_count_length p :
  removePathLevels p
    {| count := Some (Z.of_nat (length (explodePath p))); termination := None |}
  = [].
Proof.
  unfold removePathLevels. cbn [count termination with_default].
  change (jsstring_eqb "end" "end") with true. cbv iota.
  rewrite Z.sub_diag, splice_all by lia. reflexivity.
Qed.

(** Removing from the start at least as many levels as the path has leaves
    nothing. *)
Lemma removePathLevels_start_over p c :
  Z.of_nat (length (explodePath p)) <= c ->
  removePathLevels p {| count := Some c; termination := Some ("start" : jsstring) |}
  = [].
Proof.
  intros H. unfold removePathLevels. cbn [count termination with_default].
  change (jsstring_eqb "start" "end") with false.
  change (jsstring_eqb "start" "start") with true. cbv iota.
  rewrite splice_all by exact H. reflexivity.
Qed.

(** Removing from the end more levels than the path has, but fewer than
    twice as many: the negative start of [splice] counts from the end, and
    the first [2 * n - count] fragments are kept. *)
Lemma removePathLevels_end_over p c :
  let n := Z.of_nat (length (explodePath p)) in
  n < c < 2 * n ->
  removePathLevels p {| count := Some c; termination := None |}
  = implodePath (map VStr (firstn (Z.to_nat (2 * n - c)) (explodePath p))).
Proof.
  intros n H. unfold removePathLevels. cbn [count termination with_default].
  change (jsstring_eqb "end" "end") with true. cbv iota.
  unfold splice. fold n.
  destruct (Z.ltb_spec (n - c) 0) as [_|]; [|lia].
  rewrite Z.max_l by lia. rewrite Z.min_r by lia.
  replace (n + (n - c) + (n - (n + (n - c)))) with n by lia.
  subst n. rewrite Nat2Z.id, skipn_all, app_nil_r.
  do 3 f_equal. lia.
Qed.

(** C6: on a path of three fragments, removing four levels from the end
    removes one; removing three removes them all. *)
Theorem removePathLevels_count_past_length :
  explodePath "lorem.ipsum.dolor" = strings ["lorem"; "ipsum"; "dolor"]
  /\ removePathLevels "lorem.ipsum.dolor"
       {| count := Some 4; termination := None |} = "lorem.ipsum"
  /\ removePathLevels "lorem.ipsum.dolor"
       {| count := Some 3; termination := None |} = "".
Proof. repeat split. Qed.

(** C4: the fragments ['a'], ['b'] and ['c'] of ['a.b.c'] have one character
    each and are discarded by the second pass of [explodePath], so that
    [removePathLevels] returns the empty string from either end. *)
Theorem removePathLevels_single_character_keys :
  explodePath "a.b.c" = []
  /\ removePathLevels "a.b.c" {| count := Some 1; termination := None |} = ""
  /\ removePathLevels "a.b.c"
       {| count := Some 1; termination := Some ("start" : jsstring) |} = "".
Proof. repeat split. Qed.

(** With keys of two characters the same calls remove one level. *)
Lemma removePathLevels_two_character_keys :
  removePathLevels "aa.bb.cc" {| count := Some 1; termination := None |} = "aa.bb"
  /\ removePathLevels "aa.bb.cc"
       {| count := Some 1; termination := Some ("start" : jsstring) |} = "bb.cc".
Proof. repeat split. Qed.

(** ** Replacing array fragments *)

(** C5: in ['a[0].b[1]'] the keys ['a'] and ['b'] are discarded by
    [explodePath]; the two array fragments left are replaced by the empty
    string, and the result is the empty string. *)
Theorem replacePathArraysWithString_single_character_keys :
  explodePath "a[0].b[1]" = strings ["[0]"; "[1]"]
  /\ replacePathArraysWithString "a[0].b[1]" {| string_ := Some (VStr "") |} = "".
Proof. repeat split. Qed.

(** Replacing by the empty string removes the array fragments from the
    fragments [explodePath] returns and keeps the others. *)
Lemma replacePathArraysWithString_empty p :
  replacePathArraysWithString p {| string_ := Some (VStr "") |} =
  implodePath
    (map VStr
       (filter (fun ep => negb (jsstring_eqb (getStartType (VStr ep)) "array"))
          (explodePath p))).
Proof.
  unfold replacePathArraysWithString, implodePath. cbn [string_ with_default].
  assert (H : forall (fragments : list jsstring) (path : jsstring),
             fold_left implode_step
               (map (fun ep => if jsstring_eqb (getStartType (VStr ep)) "array"
                               then VStr "" else VStr ep) fragments) path
             = fold_left implode_step
                 (map VStr
                    (filter (fun ep => negb (jsstring_eqb
                                               (getStartType (VStr ep)) "array"))
                       fragments)) path).
  { induction fragments as [|ep fragments IH]; intros path; [reflexivity|].
    cbn [map filter fold_left].
    destruct (jsstring_eqb (getStartType (VStr ep)) "array"); cbn [negb].
    - rewrite implode_step_unknown by reflexivity. apply IH.
    - cbn [map fold_left]. apply IH. }
  apply H.
Qed.

(** With keys of two characters the array fragments alone disappear. *)
Lemma replacePathArraysWithString_two_character_keys :
  replacePathArraysWithString "aa[0].bb[1]" {| string_ := Some (VStr "") |}
  = "aa.bb".
Proof. reflexivity. Qed.

(** ** get and set *)

Section GetSet.

Variable baseGet : jsvalue -> jsvalue -> jsvalue.
Variable lodashSet : jsvalue -> jsvalue -> jsvalue -> jsvalue.

(** When lodash resolves nothing, it answers with the default it was
    given, whatever that is. *)
Lemma lodashGet_not_found object path :
  lodashGet baseGet object path VUndefined = VUndefined ->
  forall defaultValue, lodashGet baseGet object path defaultValue = defaultValue.
Proof.
  unfold lodashGet. intros H defaultValue.
  destruct object; try reflexivity; destruct (baseGet _ path); try reflexivity;
    discriminate.
Qed.

(** A path that is neither a string nor an array makes [get] return the
    collection. *)
Lemma get_malformed_path collection path def :
  as_string path = None -> (forall items, path <> VArr items) ->
  get baseGet collection path def = Returned collection.
Proof.
  intros Hs Ha. unfold get.
  destruct path; try reflexivity; try discriminate.
  exfalso. exact (Ha _ eq_refl).
Qed.

(** A boolean or a number as path makes [set] return the collection. *)
Lemma set_primitive_path collection path value :
  (exists b, path = VBool b) \/ (exists n, path = VNum n) ->
  set lodashSet collection path value = Returned collection.
Proof. intros [[b ->]|[n ->]]; reflexivity. Qed.

(** An array path at which lodash finds nothing makes [get] throw: the
    retry calls [split] on the array. *)
Lemma get_array_path_not_found collection items def :
  items <> [] ->
  lodashGet baseGet collection (VArr items) VUndefined = VUndefined ->
  get baseGet collection (VArr items) def = TypeError.
Proof.
  intros Hne H. unfold get, usable_path.
  destruct items as [|i items]; [congruence|].
  replace (0 <? Z.of_nat (length (i :: items))) with true
    by (symmetry; apply Z.ltb_lt; cbn [length]; lia).
  cbn [negb strip_leading_dot as_string].
  rewrite (lodashGet_not_found _ _ H). reflexivity.
Qed.

End GetSet.

(** C9: [set] reads [path.length] before it looks at the type of the path:
    for the paths [undefined] and [null] the read throws, and for an object
    with a [length] of [0] the value is returned, not the collection. *)
Theorem set_malformed_path_throws
    (lodashSet : jsvalue -> jsvalue -> jsvalue -> jsvalue)
    (collection value : jsvalue) :
  set lodashSet collection VUndefined value = TypeError
  /\ set lodashSet collection VNull value = TypeError
  /\ set lodashSet collection (VObj [("length" : jsstring, VNum 0)]) value
     = Returned value.
Proof. repeat split. Qed.

(** String paths: the result of [get] does not depend on [def]; when lodash
    finds no value, neither at the path nor at its fragments, [get] returns
    the string ['undefined']. *)
Theorem get_never_returns_def
    (baseGet : jsvalue -> jsvalue -> jsvalue)
    (collection path def : jsvalue) :
  (forall def', get baseGet collection path def' = get baseGet collection path def)
  /\ (forall s,
        usable_path path = true ->
        as_string (strip_leading_dot path) = Some s ->
        lodashGet baseGet collection (strip_leading_dot path) VUndefined
          = VUndefined ->
        lodashGet baseGet collection (VArr (map VStr (explodePath s))) VUndefined
          = VUndefined ->
        get baseGet collection path def = Returned (VStr "undefined")).
Proof.
  split; [reflexivity|].
  intros s Husable Hs Hdirect Hretry. unfold get. rewrite Husable. cbn [negb].
  rewrite (lodashGet_not_found _ _ _ Hdirect).
  change (is_undefined_string (VStr "undefined")) with true. cbv iota.
  rewrite Hs, (lodashGet_not_found _ _ _ Hretry). reflexivity.
Qed.

Lemma get_never_returns_def_witness :
  get lookup_names (VObj [("foo" : jsstring, VNum 1)]) (VStr "bar.baz") (VNum 0)
  = Returned (VStr "undefined").
Proof.
  apply (proj2 (get_never_returns_def lookup_names
                  (VObj [("foo" : jsstring, VNum 1)]) (VStr "bar.baz") (VNum 0))
           ("bar.baz" : jsstring)); reflexivity.
Defined.

(** C10: [get] lets a non-empty array through as path, but when lodash
    finds no value at it the retry hands the array to [explodePath], whose
    [split] an array does not have: the call throws, where a string path
    gives the string ['undefined']. *)
Theorem get_array_path_throws
    (baseGet : jsvalue -> jsvalue -> jsvalue)
    (collection def : jsvalue) (items : list jsvalue) :
  items <> [] ->
  lodashGet baseGet collection (VArr items) VUndefined = VUndefined ->
  usable_path (VArr items) = true
  /\ get baseGet collection (VArr items) def = TypeError
  /\ get baseGet collection (VArr items) def <> Returned (VStr "undefined").
Proof.
  intros Hne Hdirect.
  pose proof (get_array_path_not_found baseGet collection items def Hne Hdirect)
    as Hthrow.
  repeat split.
  - destruct items as [|i items]; [congruence|].
    apply Z.ltb_lt. cbn [length]. lia.
  - exact Hthrow.
  - rewrite Hthrow. discriminate.
Qed.

Lemma get_array_path_throws_witness :
  get lookup_names (VObj [("foo" : jsstring, VNum 1)])
    (VArr [VStr "missing"]) (VNum 0)
  = TypeError.
Proof.
  apply (get_array_path_throws lookup_names
           (VObj [("foo" : jsstring, VNum 1)]) (VNum 0) [VStr "missing"]);
    [discriminate | reflexivity].
Defined.

(** * Further properties *)

(** ** The tokenizer *)

(** X1: every fragment [explodePath] returns has two characters or more,
    holds no dot, and holds no ['['] past its first character. *)
Theorem explodePath_fragment_shape (p : jsstring) :
  Forall (fun f => (2 <= length f)%nat
                   /\ ~ In "."%char f
                   /\ ~ In "["%char (tl f))
    (explodePath p).
Proof. exact (explodePath_fragments p). Qed.

Lemma explodePath_at_dot a b :
  explodePath (a ++ dot :: b) = explodePath a ++ explodePath b.
Proof.
  rewrite !explodePath_filter. literals. fold dot.
  rewrite split_char_app_sep, flat_map_app, filter_app. reflexivity.
Qed.

(** X2: a dot splits the work of [explodePath]: the fragments of
    [a + '.' + b] are those of [a] followed by those of [b]. *)
Theorem explodePath_distributes_over_dot (a b : jsstring) :
  explodePath (a ++ "." ++ b) = explodePath a ++ explodePath b.
Proof. literals. cbn [app]. apply explodePath_at_dot. Qed.

(** X3: dots at the start or at the end of a path, and doubled dots, add
    no fragment. *)
Theorem explodePath_ignores_empty_segments (p q : jsstring) :
  explodePath ("." ++ p) = explodePath p
  /\ explodePath (p ++ ".") = explodePath p
  /\ explodePath (p ++ ".." ++ q) = explodePath (p ++ "." ++ q).
Proof.
  literals. cbn [app]. repeat split.
  - apply (explodePath_at_dot [] p).
  - rewrite explodePath_at_dot. apply app_nil_r.
  - rewrite !explodePath_at_dot. apply (f_equal (app (explodePath p))).
    apply (explodePath_at_dot [] q).
Qed.

(** X4: the loop of [explodePath] cuts a piece without losing or adding a
    character: the strings it pushes, put end to end, are the piece. *)
Theorem explode_partial_keeps_characters (partial : jsstring)
    (result : list jsstring) :
  concat (explode_partial partial result) = concat result ++ partial.
Proof.
  remember (length partial) as n eqn:Hn. revert partial Hn result.
  induction n as [n IH] using lt_wf_ind; intros partial Hn result.
  destruct (plain_dec partial) as [Hp|Hp].
  - rewrite explode_partial_plain by exact Hp.
    rewrite concat_app. cbn [concat]. rewrite app_nil_r. reflexivity.
  - pose proof (cut_index_range _ Hp) as Hr.
    rewrite explode_partial_cut by exact Hp.
    rewrite (IH (length (skipn (cut_index partial) partial)))
      by (rewrite ?length_skipn; lia || reflexivity).
    rewrite concat_app. cbn [concat]. rewrite app_nil_r, <- app_assoc.
    rewrite firstn_skipn. reflexivity.
Qed.

(** X5: in the loop of [explodePath] the string handed to
    [getRemainingString] is the start of the piece, so that removing its
    first occurrence is slicing the piece at the index of the bracket. *)
Theorem getRemainingString_slices_at_bracket (partial : jsstring) (i : Z) :
  indexOf partial "[" 1 = i -> i <> -1 ->
  getRemainingString partial
    {| discardedStrings := Some [slice partial 0 i]; global := None |}
  = slice_from partial i.
Proof.
  intros Hi Hfound. literals.
  pose proof (indexOf_char_range _ _ _ Hi Hfound) as Hr.
  rewrite getRemainingString_prefix by exact Hr.
  unfold slice_from. rewrite relative_index_inside by lia. reflexivity.
Qed.

Lemma getRemainingString_slices_at_bracket_witness :
  getRemainingString "ipsum[2][1]"
    {| discardedStrings := Some [slice "ipsum[2][1]" 0 5]; global := None |}
  = slice_from "ipsum[2][1]" 5.
Proof.
  apply (getRemainingString_slices_at_bracket "ipsum[2][1]" 5);
    [reflexivity | discriminate].
Defined.

(** X6: a path of two characters or more without a dot and without a
    ['['] past its first character is its own single fragment. *)
Theorem explodePath_one_fragment (p : jsstring) :
  (2 <= length p)%nat -> ~ In "."%char p -> ~ In "["%char (tl p) ->
  explodePath p = [p].
Proof. intros Hlen Hdot Hbr. apply explodePath_single. repeat split; assumption. Qed.

Lemma explodePath_one_fragment_witness :
  explodePath "lorem" = strings ["lorem"].
Proof.
  apply (explodePath_one_fragment "lorem"); cbn; [lia | |];
    intros H; repeat (destruct H as [H|H]; [discriminate H|]); exact H.
Defined.

(** X7: a path of at most one character has no fragment at all. *)
Theorem explodePath_short_path (p : jsstring) :
  (length p <= 1)%nat -> explodePath p = [].
Proof.
  intros H. destruct p as [|c [|d p]]; [reflexivity | | cbn in H; lia].
  destruct (Ascii.eqb_spec c dot) as [->|Hne]; [reflexivity|].
  rewrite explodePath_filter. literals. fold dot.
  rewrite split_char_whole by (cbn; intros [E|[]]; congruence).
  cbn [flat_map]. unfold pieces_of.
  rewrite explode_partial_plain by (unfold plain; cbn; tauto).
  reflexivity.
Qed.

Lemma explodePath_short_path_witness : explodePath "a" = [].
Proof. apply (explodePath_short_path "a"). cbn. lia. Defined.

(** ** getRemainingString *)

(** X8: without a list of strings to discard, [getRemainingString] returns
    the string it was given, whether [global] is set or not. *)
Theorem getRemainingString_default (property : jsstring) (g : option bool) :
  getRemainingString property {| discardedStrings := None; global := g |}
  = property.
Proof.
  unfold getRemainingString. cbn [discardedStrings global with_default fold_left].
  destruct (with_default false g).
  - unfold join_empty, split. induction property as [|c s IH]; [reflexivity|].
    cbn [map concat app]. rewrite IH. reflexivity.
  - destruct property; reflexivity.
Qed.

Lemma replace_at_search d p k0 :
  replace p d [] =
  match search d p k0 with
  | Some k => firstn (k - k0) p ++ skipn (k - k0 + length d) p
  | None => p
  end.
Proof.
  revert k0; induction p as [|c p IH]; intros k0; cbn [replace search].
  - destruct (startsWith [] d); [|reflexivity].
    rewrite Nat.sub_diag. reflexivity.
  - destruct (startsWith (c :: p) d).
    + rewrite Nat.sub_diag. reflexivity.
    + rewrite (IH (S k0)). destruct (search d p (S k0)) as [k|] eqn:E; [|reflexivity].
      apply search_bounds in E.
      replace (k - k0)%nat with (S (k - S k0)) by lia. reflexivity.
Qed.

(** X9: with one string to discard and [global] unset,
    [getRemainingString] removes the first occurrence of the string and
    nothing else; a string that does not occur leaves the text as it is. *)
Theorem getRemainingString_first_occurrence (property d : jsstring) :
  getRemainingString property {| discardedStrings := Some [d]; global := None |}
  = if indexOf property d 0 =? -1 then property
    else firstn (Z.to_nat (indexOf property d 0)) property
           ++ skipn (Z.to_nat (indexOf property d 0) + length d) property.
Proof.
  unfold getRemainingString. cbn [discardedStrings global with_default fold_left].
  rewrite (replace_at_search d property 0). unfold indexOf, len.
  replace (Z.to_nat (Z.min (Z.max 0 0) (Z.of_nat (length property)))) with 0%nat
    by lia.
  cbn [skipn]. destruct (search d property 0) as [k|]; [|reflexivity].
  destruct (Z.eqb_spec (Z.of_nat k) (-1)); [lia|].
  rewrite Nat2Z.id, Nat.sub_0_r. reflexivity.
Qed.

Lemma concat_split_char c s :
  concat (split s [c]) = filter (fun x => negb (Ascii.eqb x c)) s.
Proof.
  induction s as [|a s IH]; [reflexivity|].
  rewrite split_char_cons. cbn [filter]. rewrite (Ascii.eqb_sym a c).
  destruct (Ascii.eqb c a); cbn [negb concat app]; [exact IH|].
  rewrite <- IH. pose proof (split_char_nonempty c s) as Hne.
  destruct (split s [c]); [congruence | reflexivity].
Qed.

(** X10: with [global] set and a string of one character to discard,
    [getRemainingString] removes every occurrence of the character. *)
Theorem getRemainingString_global_character (property : jsstring) (c : ascii) :
  getRemainingString property
    {| discardedStrings := Some [[c]]; global := Some true |}
  = filter (fun x => negb (Ascii.eqb x c)) property.
Proof.
  unfold getRemainingString. cbn [discardedStrings global with_default fold_left].
  apply concat_split_char.
Qed.

(** ** The classifier and the detokenizer *)

(** X11: no fragment [explodePath] returns is of class 'unknown', so that
    [implodePath] drops none of them. *)
Theorem explodePath_fragments_classified (p : jsstring) :
  Forall (fun f => classified_unknown (VStr f) = false) (explodePath p).
Proof.
  eapply Forall_impl; [|exact (explodePath_fragments p)].
  cbn beta. intros f (Hlen & _).
  destruct (classified_unknown (VStr f)) eqn:E; [|reflexivity].
  apply classified_unknown_iff in E. cbn [as_string] in E.
  destruct E as [E|E]; [discriminate|]. injection E as ->. cbn in Hlen. lia.
Qed.

Lemma join_dot f rest :
  join (f :: rest) [dot] = f ++ concat (map (cons dot) rest).
Proof.
  revert f; induction rest as [|g rest IH]; intros f.
  - cbn. rewrite app_nil_r. reflexivity.
  - change (join (f :: g :: rest) [dot]) with (f ++ [dot] ++ join (g :: rest) [dot]).
    rewrite IH. reflexivity.
Qed.

Lemma fold_implode_objects fragments path :
  path <> [] ->
  Forall (fun f => getStartType (VStr f) = "object") fragments ->
  fold_left implode_step (map VStr fragments) path
  = path ++ concat (map (cons dot) fragments).
Proof.
  revert path; induction fragments as [|f fragments IH]; intros path Hne Hobj.
  - cbn. rewrite app_nil_r. reflexivity.
  - inversion Hobj as [|? ? Hf Hrest]; subst. cbn [map fold_left concat].
    rewrite implode_step_object by exact Hf. cbn [interpolate as_string].
    destruct path as [|c path]; [congruence|].
    rewrite IH by (discriminate || exact Hrest).
    rewrite <- app_assoc. reflexivity.
Qed.

(** X12: fragments that are all of class 'object' are joined with dots. *)
Theorem implodePath_objects_join (fragments : list jsstring) :
  Forall (fun f => getStartType (VStr f) = "object") fragments ->
  implodePath (map VStr fragments) = join fragments ".".
Proof.
  intros Hobj. literals. fold dot. unfold implodePath.
  destruct fragments as [|f fragments]; [reflexivity|].
  inversion Hobj as [|? ? Hf Hrest]; subst. cbn [map fold_left].
  rewrite implode_step_object by exact Hf. cbn [interpolate as_string].
  rewrite join_dot. destruct f as [|c f]; [discriminate Hf|].
  apply fold_implode_objects; [discriminate | exact Hrest].
Qed.

Lemma implodePath_objects_join_witness :
  implodePath (map VStr (strings ["lorem"; "ipsum"; "foo"]))
  = join (strings ["lorem"; "ipsum"; "foo"]) ".".
Proof.
  apply (implodePath_objects_join (strings ["lorem"; "ipsum"; "foo"])).
  repeat constructor.
Defined.

(** X13: fragments that are all of class 'array' are put end to end. *)
Theorem implodePath_arrays_concat (fragments : list jsstring) :
  Forall (fun f => getStartType (VStr f) = "array") fragments ->
  implodePath (map VStr fragments) = concat fragments.
Proof.
  intros Harr. unfold implodePath.
  enough (H : forall path : jsstring,
             fold_left implode_step (map VStr fragments) path
             = path ++ concat fragments) by apply H.
  induction fragments as [|f fragments IH]; intros path.
  - cbn. rewrite app_nil_r. reflexivity.
  - inversion Harr as [|? ? Hf Hrest]; subst. cbn [map fold_left concat].
    rewrite implode_step_array by exact Hf. cbn [interpolate as_string].
    rewrite IH by exact Hrest. rewrite <- app_assoc. reflexivity.
Qed.

Lemma implodePath_arrays_concat_witness :
  implodePath (map VStr (strings ["[2]"; "[1]"]))
  = concat (strings ["[2]"; "[1]"]).
Proof.
  apply (implodePath_arrays_concat (strings ["[2]"; "[1]"])).
  repeat constructor.
Defined.

(** X14: exploding and imploding normalizes a path once and for all: doing
    it again on the result changes nothing. *)
Theorem normalized_idempotent (p : jsstring) :
  normalized (normalized p) = normalized p.
Proof.
  unfold normalized. rewrite explode_implode by apply explodePath_fragments.
  reflexivity.
Qed.

(** ** Removing levels, in general *)

Lemma splice_tail {A : Type} (array : list A) c :
  0 <= c <= Z.of_nat (length array) ->
  splice array (Z.of_nat (length array) - c) c
  = firstn (Z.to_nat (Z.of_nat (length array) - c)) array.
Proof.
  intros H. unfold splice. set (n := Z.of_nat (length array)) in *.
  destruct (Z.ltb_spec (n - c) 0); [lia|].
  rewrite (Z.min_l (n - c)), (Z.max_l c), Z.min_l by lia.
  replace (n - c + c) with n by lia. subst n.
  rewrite Nat2Z.id, skipn_all. apply app_nil_r.
Qed.

Lemma splice_head {A : Type} (array : list A) c :
  0 <= c -> splice array 0 c = skipn (Z.to_nat c) array.
Proof.
  intros H. unfold splice. set (n := Z.of_nat (length array)) in *.
  cbn [Z.ltb Z.compare]. rewrite (Z.min_l 0), Z.max_l, Z.sub_0_r by lia.
  cbn [Z.to_nat firstn app Z.add].
  destruct (Z.le_gt_cases c n).
  - rewrite Z.min_l by lia. reflexivity.
  - rewrite Z.min_r by lia. subst n. rewrite Nat2Z.id, skipn_all.
    symmetry. apply skipn_all2. lia.
Qed.

Lemma splice_nothing {A : Type} (array : list A) start c :
  c <= 0 -> splice array start c = array.
Proof.
  intros H. unfold splice. set (n := Z.of_nat (length array)) in *.
  set (a := if start <? 0 then Z.max (n + start) 0 else Z.min start n).
  assert (Ha : 0 <= a <= n) by (subst a; destruct (Z.ltb_spec start 0); lia).
  rewrite (Z.max_r c), Z.min_l, Z.add_0_r by lia. apply firstn_skipn.
Qed.

Lemma Forall_firstn_ok n fragments :
  Forall fragment_ok fragments -> Forall fragment_ok (firstn n fragments).
Proof.
  intros H. apply Forall_forall. intros f Hf.
  rewrite Forall_forall in H. apply H.
  rewrite <- (firstn_skipn n fragments). apply in_or_app; left; exact Hf.
Qed.

Lemma Forall_skipn_ok n fragments :
  Forall fragment_ok fragments -> Forall fragment_ok (skipn n fragments).
Proof.
  intros H. apply Forall_forall. intros f Hf.
  rewrite Forall_forall in H. apply H.
  rewrite <- (firstn_skipn n fragments). apply in_or_app; right; exact Hf.
Qed.

Lemma removePathLevels_end p c :
  0 <= c <= Z.of_nat (length (explodePath p)) ->
  removePathLevels p {| count := Some c; termination := None |}
  = implodePath
      (map VStr (firstn (Z.to_nat (Z.of_nat (length (explodePath p)) - c))
                   (explodePath p))).
Proof.
  intros H. unfold removePathLevels. cbn [count termination with_default].
  change (jsstring_eqb "end" "end") with true. cbv iota.
  rewrite splice_tail by exact H. reflexivity.
Qed.

Lemma removePathLevels_start p c :
  0 <= c ->
  removePathLevels p {| count := Some c; termination := Some ("start" : jsstring) |}
  = implodePath (map VStr (skipn (Z.to_nat c) (explodePath p))).
Proof.
  intros H. unfold removePathLevels. cbn [count termination with_default].
  change (jsstring_eqb "start" "end") with false.
  change (jsstring_eqb "start" "start") with true. cbv iota.
  rewrite splice_head by exact H. reflexivity.
Qed.

(** X15: removing [count] levels from the end, with [count] between [0]
    and the number of fragments, leaves a path whose fragments are those of
    the path without the last [count]. *)
Theorem removePathLevels_end_fragments (p : jsstring) (c : Z) :
  0 <= c <= Z.of_nat (length (explodePath p)) ->
  explodePath (removePathLevels p {| count := Some c; termination := None |})
  = firstn (Z.to_nat (Z.of_nat (length (explodePath p)) - c)) (explodePath p).
Proof.
  intros H. rewrite removePathLevels_end by exact H.
  apply explode_implode, Forall_firstn_ok, explodePath_fragments.
Qed.

Lemma removePathLevels_end_fragments_witness :
  explodePath (removePathLevels "lorem.ipsum[2][1].foo"
                 {| count := Some 2; termination := None |})
  = firstn (Z.to_nat (Z.of_nat (length (explodePath "lorem.ipsum[2][1].foo")) - 2))
      (explodePath "lorem.ipsum[2][1].foo").
Proof.
  apply (removePathLevels_end_fragments "lorem.ipsum[2][1].foo" 2).
  vm_compute. split; discriminate.
Defined.

(** X16: removing [count >= 0] levels from the start leaves a path whose
    fragments are those of the path without the first [count]; past the
    number of fragments, none is left. *)
Theorem removePathLevels_start_fragments (p : jsstring) (c : Z) :
  0 <= c ->
  explodePath (removePathLevels p
                 {| count := Some c; termination := Some ("start" : jsstring) |})
  = skipn (Z.to_nat c) (explodePath p).
Proof.
  intros H. rewrite removePathLevels_start by exact H.
  apply explode_implode, Forall_skipn_ok, explodePath_fragments.
Qed.

Lemma removePathLevels_start_fragments_witness :
  explodePath (removePathLevels "lorem.ipsum[2][1].foo"
                 {| count := Some 2; termination := Some ("start" : jsstring) |})
  = skipn (Z.to_nat 2) (explodePath "lorem.ipsum[2][1].foo").
Proof.
  apply (removePathLevels_start_fragments "lorem.ipsum[2][1].foo" 2).
  vm_compute. discriminate.
Defined.

(** X17: removing levels from the end in two calls is removing their sum
    in one, as long as the path has that many fragments. *)
Theorem removePathLevels_end_twice (p : jsstring) (a b : Z) :
  0 <= a -> 0 <= b -> a + b <= Z.of_nat (length (explodePath p)) ->
  removePathLevels
    (removePathLevels p {| count := Some a; termination := None |})
    {| count := Some b; termination := None |}
  = removePathLevels p {| count := Some (a + b); termination := None |}.
Proof.
  intros Ha Hb Hab.
  set (n := Z.of_nat (length (explodePath p))) in *.
  assert (Hfr : explodePath
                  (removePathLevels p {| count := Some a; termination := None |})
                = firstn (Z.to_nat (n - a)) (explodePath p)).
  { rewrite removePathLevels_end by (fold n; lia).
    apply explode_implode, Forall_firstn_ok, explodePath_fragments. }
  assert (Hlen : Z.of_nat (length (firstn (Z.to_nat (n - a)) (explodePath p)))
                 = n - a)
    by (rewrite length_firstn; subst n; lia).
  rewrite (removePathLevels_end (removePathLevels p _) b)
    by (rewrite Hfr, Hlen; lia).
  rewrite Hfr, Hlen, firstn_firstn.
  rewrite (removePathLevels_end p (a + b)) by (fold n; lia). fold n.
  do 3 f_equal. lia.
Qed.

Lemma removePathLevels_end_twice_witness :
  removePathLevels
    (removePathLevels "lorem.ipsum[2][1].foo"
       {| count := Some 1; termination := None |})
    {| count := Some 2; termination := None |}
  = removePathLevels "lorem.ipsum[2][1].foo"
      {| count := Some (1 + 2); termination := None |}.
Proof.
  apply (removePathLevels_end_twice "lorem.ipsum[2][1].foo" 1 2);
    vm_compute; discriminate.
Defined.

(** X18: called without options, [removePathLevels] drops exactly the last
    fragment; a path without fragments stays without. *)
Theorem removePathLevels_default (p : jsstring) :
  removePathLevels p {| count := None; termination := None |}
  = implodePath (map VStr (removelast (explodePath p))).
Proof.
  unfold removePathLevels. cbn [count termination with_default].
  change (jsstring_eqb "end" "end") with true. cbv iota.
  destruct (explodePath p) as [|f fragments] eqn:E; [reflexivity|].
  rewrite splice_tail by (cbn [length]; lia).
  rewrite removelast_firstn_len. do 3 f_equal. cbn [length]. lia.
Qed.

(** X19: a count of zero or less removes nothing, from either end, and so
    does every count when [termination] is neither 'end' nor 'start': the
    result is the normalized path. *)
Theorem removePathLevels_nothing (p : jsstring) (c : Z) (t : jsstring) :
  c <= 0 \/ (jsstring_eqb t "end" = false /\ jsstring_eqb t "start" = false) ->
  removePathLevels p {| count := Some c; termination := Some t |} = normalized p.
Proof.
  intros H. unfold removePathLevels, normalized.
  cbn [count termination with_default].
  destruct (jsstring_eqb t "end") eqn:Eend;
    [|destruct (jsstring_eqb t "start") eqn:Estart].
  - destruct H as [H|[H _]]; [|discriminate]. rewrite splice_nothing by exact H.
    reflexivity.
  - destruct H as [H|[_ H]]; [|discriminate]. rewrite splice_nothing by exact H.
    reflexivity.
  - reflexivity.
Qed.

Lemma removePathLevels_nothing_witness :
  removePathLevels "lorem.ipsum[2][1].foo"
    {| count := Some 0; termination := Some ("end" : jsstring) |}
  = normalized "lorem.ipsum[2][1].foo".
Proof.
  apply (removePathLevels_nothing "lorem.ipsum[2][1].foo" 0 "end").
  left. lia.
Defined.

(** ** Subpaths, in general *)

Lemma getSubPaths_fold (fragments accumulated : list jsstring)
    (result : list jsstring) :
  fold_left
    (fun '(accumulatedPath, result) path =>
       let accumulatedPath := accumulatedPath ++ [path] in
       (accumulatedPath, result ++ [implodePath (map VStr accumulatedPath)]))
    fragments (accumulated, result)
  = (accumulated ++ fragments,
     result ++ map (prefix_path (accumulated ++ fragments))
                 (seq (S (length accumulated)) (length fragments))).
Proof.
  revert accumulated result.
  induction fragments as [|f fragments IH]; intros accumulated result.
  - cbn. rewrite !app_nil_r. reflexivity.
  - cbn [fold_left]. rewrite IH. rewrite <- !app_assoc. cbn [app].
    f_equal. f_equal. cbn [length seq map]. rewrite length_app. cbn [length].
    rewrite Nat.add_1_r. f_equal. unfold prefix_path.
    replace (S (length accumulated)) with (length accumulated + 1)%nat by lia.
    rewrite firstn_app_2. reflexivity.
Qed.

Lemma getSubPaths_string p options :
  getSubPaths (VStr p) options =
  let prefixes :=
    (if with_default false (ignoreRoot options) then [] else [ [] ])
      ++ map (prefix_path (explodePath p)) (seq 1 (length (explodePath p))) in
  if with_default false (ignoreFull options) then removelast prefixes
  else prefixes.
Proof.
  unfold getSubPaths. cbn [as_string].
  rewrite getSubPaths_fold. cbn [app length]. cbv zeta.
  destruct (with_default false (ignoreFull options)); [|rewrite andb_false_r; reflexivity].
  rewrite andb_true_r.
  destruct (_ ++ _) as [|x l] eqn:E; [reflexivity|].
  replace (0 <? Z.of_nat (length (x :: l))) with true
    by (symmetry; apply Z.ltb_lt; cbn [length]; lia).
  reflexivity.
Qed.

Lemma getSubPaths_plain p :
  getSubPaths (VStr p) {| ignoreRoot := None; ignoreFull := None |}
  = map (prefix_path (explodePath p)) (seq 0 (S (length (explodePath p)))).
Proof. rewrite getSubPaths_string. reflexivity. Qed.

(** X20: without options, the subpaths of a path of [n] fragments are, in
    this order, the implosions of its first [0], [1], ..., [n]
    fragments. *)
Theorem getSubPaths_prefixes (p : jsstring) :
  getSubPaths (VStr p) {| ignoreRoot := None; ignoreFull := None |}
  = map (fun k => implodePath (map VStr (firstn k (explodePath p))))
      (seq 0 (S (length (explodePath p)))).
Proof. apply getSubPaths_plain. Qed.

(** X21: [ignoreRoot] drops the first of the subpaths returned without
    options and [ignoreFull] the last; with nothing left to drop the result
    is empty. *)
Theorem getSubPaths_flags (p : jsstring) (options : subPathsOptions) :
  getSubPaths (VStr p) options =
  (if with_default false (ignoreFull options)
   then @removelast jsstring else id)
    ((if with_default false (ignoreRoot options) then @tl jsstring else id)
       (getSubPaths (VStr p) {| ignoreRoot := None; ignoreFull := None |})).
Proof.
  rewrite (getSubPaths_string p options).
  rewrite (getSubPaths_string p {| ignoreRoot := None; ignoreFull := None |}).
  cbn [ignoreRoot ignoreFull with_default]. cbv zeta.
  destruct (with_default false (ignoreFull options));
    destruct (with_default false (ignoreRoot options)); reflexivity.
Qed.

(** X22: exploding the subpaths of a path gives the prefixes of its
    fragments: nothing is lost or merged when a subpath is imploded. *)
Theorem getSubPaths_explode (p : jsstring) :
  map explodePath
    (getSubPaths (VStr p) {| ignoreRoot := None; ignoreFull := None |})
  = map (fun k => firstn k (explodePath p))
      (seq 0 (S (length (explodePath p)))).
Proof.
  rewrite getSubPaths_plain, map_map. apply map_ext. intros k.
  apply explode_implode, Forall_firstn_ok, explodePath_fragments.
Qed.

(** X23: counted from the end, the subpaths are the results of
    [removePathLevels]: with [n] fragments, the subpath at index [n - count]
    is the path without its last [count] levels. *)
Theorem getSubPaths_removePathLevels (p : jsstring) (c : Z) :
  0 <= c <= Z.of_nat (length (explodePath p)) ->
  nth_error (getSubPaths (VStr p) {| ignoreRoot := None; ignoreFull := None |})
    (Z.to_nat (Z.of_nat (length (explodePath p)) - c))
  = Some (removePathLevels p {| count := Some c; termination := None |}).
Proof.
  intros H. rewrite getSubPaths_plain, removePathLevels_end by exact H.
  rewrite nth_error_map, nth_error_seq.
  destruct (Nat.ltb_spec (Z.to_nat (Z.of_nat (length (explodePath p)) - c))
              (S (length (explodePath p)))); [reflexivity | lia].
Qed.

Lemma getSubPaths_removePathLevels_witness :
  nth_error
    (getSubPaths (VStr "lorem.ipsum[2][1].foo")
       {| ignoreRoot := None; ignoreFull := None |})
    (Z.to_nat (Z.of_nat (length (explodePath "lorem.ipsum[2][1].foo")) - 1))
  = Some (removePathLevels "lorem.ipsum[2][1].foo"
            {| count := Some 1; termination := None |}).
Proof.
  apply (getSubPaths_removePathLevels "lorem.ipsum[2][1].foo" 1).
  vm_compute. split; discriminate.
Defined.

(** ** Replacing array fragments, in general *)

Lemma replacePathArraysWithString_fragments p :
  explodePath (replacePathArraysWithString p {| string_ := Some (VStr "") |})
  = filter not_array (explodePath p).
Proof.
  rewrite replacePathArraysWithString_empty. apply explode_implode.
  apply Forall_forall. intros f Hf. apply filter_In in Hf.
  pose proof (explodePath_fragments p) as Hok. rewrite Forall_forall in Hok.
  apply Hok, Hf.
Qed.

Lemma filter_twice {A : Type} (keep : A -> bool) l :
  filter keep (filter keep l) = filter keep l.
Proof.
  induction l as [|x l IH]; [reflexivity|]. cbn [filter].
  destruct (keep x) eqn:E; [|exact IH]. cbn [filter]. rewrite E, IH. reflexivity.
Qed.

(** X24: replacing the array fragments of a path by the empty string
    leaves a path whose fragments are the fragments of the path that are
    not arrays, in their order; doing it again changes nothing. *)
Theorem replacePathArraysWithString_removes_arrays (p : jsstring) :
  let removed :=
    replacePathArraysWithString p {| string_ := Some (VStr "") |} in
  explodePath removed = filter not_array (explodePath p)
  /\ replacePathArraysWithString removed {| string_ := Some (VStr "") |}
     = removed.
Proof.
  cbv zeta. split; [apply replacePathArraysWithString_fragments|].
  rewrite (replacePathArraysWithString_empty
             (replacePathArraysWithString p _)).
  rewrite replacePathArraysWithString_fragments.
  change (fun ep => negb (jsstring_eqb (getStartType (VStr ep)) "array"))
    with not_array.
  rewrite filter_twice. symmetry. apply replacePathArraysWithString_empty.
Qed.

(** ** get and set, in general *)

Lemma strip_leading_dot_dotted s :
  strip_leading_dot (VStr ("." ++ s)) = VStr s.
Proof. reflexivity. Qed.

Lemma strip_leading_dot_plain s :
  startsWith s "." = false -> strip_leading_dot (VStr s) = VStr s.
Proof. unfold strip_leading_dot. cbn [as_string]. intros ->. reflexivity. Qed.

Lemma usable_path_string s : s <> [] -> usable_path (VStr s) = true.
Proof.
  intros H. destruct s as [|c s]; [congruence|].
  apply Z.ltb_lt. unfold len. cbn [length]. lia.
Qed.

(** X25: one leading dot is not part of the path: [get] and [set] treat
    ['.' + s] as they treat [s], for every non-empty [s] that does not
    itself begin with a dot. *)
Theorem get_set_leading_dot
    (baseGet : jsvalue -> jsvalue -> jsvalue)
    (lodashSet : jsvalue -> jsvalue -> jsvalue -> jsvalue)
    (collection def value : jsvalue) (s : jsstring) :
  s <> [] -> startsWith s "." = false ->
  get baseGet collection (VStr ("." ++ s)) def
  = get baseGet collection (VStr s) def
  /\ set lodashSet collection (VStr ("." ++ s)) value
     = set lodashSet collection (VStr s) value.
Proof.
  intros Hne Hdot. unfold get, set.
  rewrite strip_leading_dot_dotted, (strip_leading_dot_plain s Hdot).
  rewrite (usable_path_string s Hne).
  rewrite (usable_path_string ("." ++ s)) by discriminate.
  destruct s as [|c s]; [congruence|]. split; reflexivity.
Qed.

Lemma get_set_leading_dot_witness :
  get lookup_names (VObj [("foo" : jsstring, VNum 1)]) (VStr ("." ++ "foo")) VNull
  = get lookup_names (VObj [("foo" : jsstring, VNum 1)]) (VStr "foo") VNull
  /\ set (fun collection _ _ => collection)
       (VObj [("foo" : jsstring, VNum 1)]) (VStr ("." ++ "foo")) (VNum 2)
     = set (fun collection _ _ => collection)
         (VObj [("foo" : jsstring, VNum 1)]) (VStr "foo") (VNum 2).
Proof.
  apply (get_set_leading_dot lookup_names (fun collection _ _ => collection)
           (VObj [("foo" : jsstring, VNum 1)]) VNull (VNum 2) "foo");
    [discriminate | reflexivity].
Defined.

(** X26: when lodash finds nothing at a string path as it is written,
    [get] answers with what lodash finds at the array of the fragments of
    the path. *)
Theorem get_retries_with_fragments
    (baseGet : jsvalue -> jsvalue -> jsvalue)
    (collection path def : jsvalue) (s : jsstring) :
  usable_path path = true ->
  as_string (strip_leading_dot path) = Some s ->
  lodashGet baseGet collection (strip_leading_dot path) VUndefined = VUndefined ->
  get baseGet collection path def
  = Returned (lodashGet baseGet collection (VArr (map VStr (explodePath s)))
                (VStr "undefined")).
Proof.
  intros Husable Hs Hdirect. unfold get. rewrite Husable. cbn [negb].
  rewrite (lodashGet_not_found _ _ _ Hdirect).
  change (is_undefined_string (VStr "undefined")) with true. cbv iota.
  rewrite Hs. reflexivity.
Qed.

Lemma get_retries_with_fragments_witness :
  get lookup_names
    (VObj [("lorem" : jsstring, VObj [("ipsum" : jsstring, VNum 7)])])
    (VStr "lorem.ipsum") VNull
  = Returned (VNum 7).
Proof.
  apply (get_retries_with_fragments lookup_names
           (VObj [("lorem" : jsstring, VObj [("ipsum" : jsstring, VNum 7)])])
           (VStr "lorem.ipsum") VNull "lorem.ipsum"); reflexivity.
Defined.

(** ** Dynamic variables *)

(** X27: [isPathStartDynamic] holds exactly when the first or the second
    character of the path is ['{']. *)
Theorem isPathStartDynamic_iff (path : jsstring) :
  isPathStartDynamic path = true <->
  nth_error path 0 = Some "{"%char \/ nth_error path 1 = Some "{"%char.
Proof.
  unfold isPathStartDynamic. literals.
  destruct (indexOf_char_spec path "{" 0)
    as [(Hi & Hnone)|(k & Hi & _ & Hnth & Hbefore)];
    change (Z.of_nat 0) with 0 in Hi; rewrite Hi.
  - cbn. split; [discriminate|].
    intros [H|H]; exfalso; [apply (Hnone 0%nat) | apply (Hnone 1%nat)];
      (lia || exact H).
  - destruct k as [|[|k]].
    + cbn. split; [left; exact Hnth | reflexivity].
    + cbn. split; [right; exact Hnth | reflexivity].
    + replace (existsb _ _) with false
        by (cbn [existsb]; symmetry;
            rewrite !orb_false_iff; repeat split; try apply Z.eqb_neq; lia).
      split; [discriminate|].
      intros [H|H]; exfalso; [apply (Hbefore 0%nat) | apply (Hbefore 1%nat)];
        (lia || exact H).
Qed.

Lemma in_class_true c :
  in_class c = true <-> c <> "{"%char /\ c <> "}"%char.
Proof.
  unfold in_class. rewrite negb_true_iff, orb_false_iff.
  split; intros [H1 H2]; split;
    solve [apply Ascii.eqb_neq; assumption].
Qed.

Lemma startsWith_head s n c rest :
  startsWith (skipn n s) (c :: rest) = true -> nth_error s n = Some c.
Proof.
  revert s; induction n as [|n IH]; intros [|x s]; cbn [skipn nth_error startsWith];
    try discriminate.
  - intros H. apply andb_true_iff in H. destruct H as [H _].
    apply Ascii.eqb_eq in H. congruence.
  - apply IH.
Qed.

Lemma startsWith_split s needle :
  startsWith s needle = true -> s = needle ++ skipn (length needle) s.
Proof.
  revert s; induction needle as [|a needle IH]; intros s H; [reflexivity|].
  destruct s as [|b s]; cbn [startsWith] in H; [discriminate|].
  apply andb_true_iff in H. destruct H as [Hab H].
  apply Ascii.eqb_eq in Hab. subst b. cbn [app length skipn].
  f_equal. apply IH, H.
Qed.

Lemma startsWith_self needle rest : startsWith (needle ++ rest) needle = true.
Proof.
  induction needle as [|a needle IH]; [reflexivity|].
  cbn [app startsWith]. rewrite Ascii.eqb_refl. exact IH.
Qed.

Lemma search_at_start needle s k :
  startsWith s needle = true -> search needle s k = Some k.
Proof. intros H. destruct s; cbn [search]; rewrite H; reflexivity. Qed.

Lemma search_occurrence needle a b k :
  search needle (a ++ needle ++ b) k <> None.
Proof.
  revert k; induction a as [|c a IH]; intros k.
  - cbn [app]. rewrite search_at_start by apply startsWith_self. discriminate.
  - cbn [app search]. destruct (startsWith _ needle); [discriminate | apply IH].
Qed.

Lemma class_run_prefix s :
  (class_run s <= length s)%nat
  /\ Forall (fun c => in_class c = true) (firstn (class_run s) s).
Proof.
  induction s as [|c s [Hle Hall]]; [split; [cbn; lia | constructor]|].
  cbn [class_run]. destruct (in_class c) eqn:E; cbn [firstn length].
  - split; [lia | constructor; assumption].
  - split; [lia | constructor].
Qed.

Lemma lookahead_from_some s n m :
  lookahead_from s n = Some m ->
  exists k, (1 <= k <= n)%nat /\ m = firstn k s
            /\ startsWith (skipn k s) "}}" = true.
Proof.
  induction n as [|n IH]; cbn [lookahead_from]; [discriminate|].
  destruct (startsWith (skipn (S n) s) "}}") eqn:E.
  - intros [= <-]. exists (S n). repeat split; [lia | lia | exact E].
  - intros H. destruct (IH H) as (k & Hk & Hm & Hs).
    exists k. repeat split; [lia | lia | exact Hm | exact Hs].
Qed.

Lemma lookahead_from_none s n :
  (forall k, (1 <= k <= n)%nat -> nth_error s k <> Some "}"%char) ->
  lookahead_from s n = None.
Proof.
  induction n as [|n IH]; intros H; [reflexivity|]. cbn [lookahead_from].
  destruct (startsWith (skipn (S n) s) "}}") eqn:E.
  - exfalso. literals. apply startsWith_head in E. apply (H (S n)); [lia | exact E].
  - apply IH. intros k Hk. apply H. lia.
Qed.

(** What a successful match looks like. *)
Lemma regex_match_shape s m :
  regex_match s = Some m ->
  m <> [] /\ Forall (fun c => in_class c = true) m
  /\ exists pre post, s = pre ++ m ++ "}}" ++ post.
Proof.
  induction s as [|c s IH].
  - cbn. discriminate.
  - cbn [regex_match]. destruct (match_here (c :: s)) as [m'|] eqn:E.
    + intros [= ->]. unfold match_here in E.
      destruct (lookahead_from_some _ _ _ E) as (k & Hk & -> & Hs).
      destruct (class_run_prefix (c :: s)) as [Hle Hall].
      repeat split.
      * destruct k; [lia | discriminate].
      * apply Forall_forall. intros x Hx. rewrite Forall_forall in Hall.
        apply Hall. rewrite <- (firstn_skipn k (firstn _ (c :: s))).
        rewrite firstn_firstn, Nat.min_l by lia.
        apply in_or_app; left; exact Hx.
      * exists [], (skipn (length ("}}" : jsstring)) (skipn k (c :: s))).
        cbn [app]. rewrite <- (startsWith_split _ _ Hs).
        symmetry. apply firstn_skipn.
    + intros H. destruct (IH H) as (Hne & Hall & pre & post & ->).
      repeat split; [exact Hne | exact Hall |].
      exists (c :: pre), post. reflexivity.
Qed.

(** X28: on a path in which ['}}'] does not occur,
    [getFirstDynamicVariableName] throws. *)
Theorem getFirstDynamicVariableName_no_delimiter (path : jsstring) :
  indexOf path "}}" 0 = -1 -> getFirstDynamicVariableName path = TypeError.
Proof.
  intros H. unfold getFirstDynamicVariableName.
  destruct (regex_match path) as [m|] eqn:E; [|reflexivity].
  exfalso. destruct (regex_match_shape _ _ E) as (_ & _ & pre & post & Hp).
  unfold indexOf, len in H.
  replace (Z.to_nat (Z.min (Z.max 0 0) (Z.of_nat (length path)))) with 0%nat
    in H by lia.
  cbn [skipn] in H. rewrite Hp in H at 1.
  rewrite (app_assoc pre m) in H.
  pose proof (search_occurrence "}}" (pre ++ m) post 0) as Hocc.
  destruct (search "}}" ((pre ++ m) ++ "}}" ++ post) 0); [lia | congruence].
Qed.

Lemma getFirstDynamicVariableName_no_delimiter_witness :
  getFirstDynamicVariableName "lorem.{{ipsum}" = TypeError.
Proof.
  apply (getFirstDynamicVariableName_no_delimiter "lorem.{{ipsum}").
  reflexivity.
Defined.

(** X29: a name [getFirstDynamicVariableName] returns is not empty, holds
    no brace, and stands in the path right before a ['}}']. *)
Theorem getFirstDynamicVariableName_shape (path name : jsstring) :
  getFirstDynamicVariableName path = Returned name ->
  name <> []
  /\ ~ In "{"%char name /\ ~ In "}"%char name
  /\ exists pre post, path = pre ++ name ++ "}}" ++ post.
Proof.
  unfold getFirstDynamicVariableName.
  destruct (regex_match path) as [m|] eqn:E; [|discriminate].
  intros [= ->]. destruct (regex_match_shape _ _ E) as (Hne & Hall & Hex).
  rewrite Forall_forall in Hall.
  repeat split; [exact Hne | | | exact Hex];
    intros Hin; apply Hall, in_class_true in Hin; tauto.
Qed.

Lemma getFirstDynamicVariableName_shape_witness :
  ("bar" : jsstring) <> []
  /\ ~ In "{"%char ("bar" : jsstring) /\ ~ In "}"%char ("bar" : jsstring)
  /\ exists pre post, ("foo.{{bar}}.baz" : jsstring) = pre ++ "bar" ++ "}}" ++ post.
Proof.
  apply (getFirstDynamicVariableName_shape "foo.{{bar}}.baz" "bar").
  reflexivity.
Defined.

Lemma class_run_stops a b rest :
  in_class b = false -> (class_run (a ++ b :: rest) <= length a)%nat.
Proof.
  intros Hb. induction a as [|c a IH]; cbn [app class_run length].
  - rewrite Hb. lia.
  - destruct (in_class c); lia.
Qed.

Lemma class_run_all name b rest :
  Forall (fun c => in_class c = true) name -> in_class b = false ->
  class_run (name ++ b :: rest) = length name.
Proof.
  intros Hall Hb. induction Hall as [|c name Hc _ IH]; cbn [app class_run length].
  - rewrite Hb. reflexivity.
  - rewrite Hc, IH. reflexivity.
Qed.

Lemma no_close_before pre rest k :
  ~ In "}"%char pre -> (k <= length pre)%nat ->
  nth_error (pre ++ "{"%char :: rest) k <> Some "}"%char.
Proof.
  intros Hpre Hk. destruct (Nat.eq_dec k (length pre)) as [->|Hne].
  - rewrite nth_error_app2, Nat.sub_diag by lia. discriminate.
  - rewrite nth_error_app1 by lia. intros H. apply nth_error_In in H. tauto.
Qed.

Lemma regex_match_template pre name post :
  ~ In "}"%char pre -> name <> [] ->
  Forall (fun c => in_class c = true) name ->
  regex_match (pre ++ "{{" ++ name ++ "}}" ++ post) = Some name.
Proof.
  intros Hpre Hne Hall. literals. cbn [app].
  induction pre as [|c pre IH].
  - cbn [app]. cbn [regex_match match_here class_run in_class Ascii.eqb
                    Bool.eqb orb negb lookahead_from].
    change (regex_match (name ++ "}"%char :: "}"%char :: post) = Some name).
    destruct name as [|x name]; [congruence|].
    cbn [app regex_match]. unfold match_here.
    change (x :: name ++ "}"%char :: "}"%char :: post)
      with ((x :: name) ++ "}"%char :: "}"%char :: post).
    rewrite class_run_all by (exact Hall || reflexivity).
    cbn [length lookahead_from].
    change (S (length name)) with (length (x :: name)).
    rewrite skipn_app, skipn_all, Nat.sub_diag, firstn_app, firstn_all, Nat.sub_diag.
    cbn [skipn firstn app].
    change (startsWith ("}"%char :: "}"%char :: post) "}}") with true.
    cbv iota. rewrite app_nil_r. reflexivity.
  - assert (Hpre' : ~ In "}"%char pre) by (intros H; apply Hpre; right; exact H).
    specialize (IH Hpre'). cbn [app regex_match].
    replace (match_here (c :: pre ++ "{"%char :: "{"%char :: name ++ "}"%char :: "}"%char :: post))
      with (@None jsstring); [exact IH|].
    symmetry. unfold match_here. apply lookahead_from_none. intros k Hk.
    pose proof (class_run_stops (c :: pre) "{"%char
                  ("{"%char :: name ++ "}"%char :: "}"%char :: post) eq_refl) as Hrun.
    apply (no_close_before (c :: pre)); [exact Hpre|].
    cbn [app] in Hrun. lia.
Qed.

(** X30: in a path that holds a placeholder ['{{' + name + '}}'], with a
    non-empty name free of braces and no ['}'] before the placeholder,
    [getFirstDynamicVariableName] returns the name. *)
Theorem getFirstDynamicVariableName_placeholder (pre name post : jsstring) :
  ~ In "}"%char pre -> name <> [] ->
  ~ In "{"%char name -> ~ In "}"%char name ->
  getFirstDynamicVariableName (pre ++ "{{" ++ name ++ "}}" ++ post)
  = Returned name.
Proof.
  intros Hpre Hne Hopen Hclose. unfold getFirstDynamicVariableName.
  rewrite regex_match_template; [reflexivity | exact Hpre | exact Hne |].
  apply Forall_forall. intros c Hc. apply in_class_true.
  split; intros ->; tauto.
Qed.

Lemma getFirstDynamicVariableName_placeholder_witness :
  getFirstDynamicVariableName ("foo." ++ "{{" ++ "bar" ++ "}}" ++ ".baz")
  = Returned ("bar" : jsstring).
Proof.
  apply (getFirstDynamicVariableName_placeholder "foo." "bar" ".baz");
    cbn; try discriminate;
    intros H; repeat (destruct H as [H|H]; [discriminate H|]); exact H.
Defined.
